(** * linopy.matrices: dense vectors and matrices of a model

    A shallow embedding of [linopy/matrices.py]: the scatter primitive
    [create_vector] and the [MatrixAccessor] class with its four
    [cached_property] slots ([flat_vars], [flat_cons], [sol], [dual]) and
    its plain properties.

    Conventions.
    - Python exceptions are values of [exn]; a pure computation that may
      raise returns a [result].
    - The accessor is stateful only through the cached properties that live
      in its instance dictionary.  A method is a function
      [cache -> result A * cache * nat]: the value or the exception raised,
      the instance dictionary afterwards (an exception does not roll the
      dictionary back) and, as ghost information, how many times
      [create_vector] was entered.
    - [self._parent] is a reference to a mutable model.  Every method takes
      the state of the model at the time of the call as an argument, so a
      model that changes between two calls is two different arguments.
    - numpy arrays are lists, indexed by [Z] the way numpy does it: a
      negative index counts from the end, an index outside [-n, n) raises
      [IndexError].
    - The dtype of an array is that of the value it was filled with; a
      value written into the array is converted to it ([astype]).  [Z] is
      an integer (of Python, or of an int64 column, which then says that
      its values fit 64 bits), [float] a float64, [string] a [str] and
      [option string] a [str] or the float [nan].
    - The flat tables are those of a model whose flattening succeeds and
      gives every column: a model without any variable, whose
      [m.variables.flat] raises, and a constraint table that has lost its
      [sign] and [rhs] columns are outside the embedding. *)

From Stdlib Require Import ZArith List String Floats.PrimFloat Lia.
From stdpp Require Import base tactics option list strings.

Open Scope string_scope.
Open Scope Z_scope.

(** ** Exceptions and results

    An exception is its class and its message.  The messages that
    [matrices.py] writes itself are verbatim; those of Python, numpy and
    pandas are indicative. *)

Inductive exn : Type :=
  | ValueError (msg : string)
  | AttributeError (msg : string)
  | IndexError (msg : string)
  | TypeError (msg : string)
  | InvalidIndexError (msg : string)
  | OverflowError (msg : string).

Inductive result (A : Type) : Type :=
  | Ok (a : A)
  | Raise (e : exn).

Arguments Ok {A} a.
Arguments Raise {A} e.

Definition rbind {A B} (r : result A) (k : A -> result B) : result B :=
  match r with
  | Ok a => k a
  | Raise e => Raise e
  end.

Notation "'let?' x ':=' r 'in' k" := (rbind r (fun x => k))
  (at level 10, x name, r at level 100, k at level 200).

(** A Python number that is used as a size or as an index: an integer, or
    the float [nan] that pandas returns for the maximum of an empty column
    and for a label that a [map] does not find. *)
Inductive number : Type :=
  | Int (z : Z)
  | FloatNaN.

(** ** Element types

    [astype fill_value v] is what an array made by
    [np.full(shape, fill_value)] stores when [v] is written into it: the
    array has the dtype of [fill_value] and the assignment converts [v] to
    that dtype, or raises. *)
Class Dtype (A : Type) : Type := astype : A -> A -> result A.

(** float64 values in a float64 array. *)
#[global] Instance float_dtype : Dtype float := fun _ v => Ok v.

Definition fits_int64 (z : Z) : bool :=
  (-9223372036854775808 <=? z) && (z <? 9223372036854775808).
Definition fits_uint64 (z : Z) : bool :=
  (0 <=? z) && (z <? 18446744073709551616).

(** An array filled with an integer is int64 when the integer fits,
    uint64 when it fits that, and an array of objects otherwise; an integer
    that the dtype cannot hold is refused. *)
#[global] Instance int_dtype : Dtype Z := fun fill_value v =>
  if fits_int64 fill_value then
    if fits_int64 v then Ok v
    else Raise (OverflowError "Python int too large to convert to C long")
  else if fits_uint64 fill_value then
    if fits_uint64 v then Ok v
    else Raise (OverflowError "Python integer out of bounds for uint64")
  else Ok v.

(** The width of the unicode dtype that numpy gives a string: its length,
    and one for the empty string. *)
Definition str_width (fill_value : string) : nat :=
  Nat.max 1 (String.length fill_value).

(** A string written into a unicode array is cut to the array's width. *)
#[global] Instance str_dtype : Dtype string := fun fill_value v =>
  Ok (String.substring 0 (str_width fill_value) v).

(** A column of strings with missing entries ([None] is the float [nan]).
    In an array filled with a string, [nan] is stored as the string
    ["nan"] cut to the width.  An array filled with [nan] is a float
    array: it takes [nan] and refuses a string that is not a number. *)
#[global] Instance str_or_nan_dtype : Dtype (option string) := fun fill_value v =>
  match fill_value, v with
  | Some f, Some s => Ok (Some (String.substring 0 (str_width f) s))
  | Some f, None => Ok (Some (String.substring 0 (str_width f) "nan"))
  | None, None => Ok None
  | None, Some _ => Raise (ValueError "could not convert string to float")
  end.

(** ** numpy and builtins used by [create_vector] *)

Section Numpy.
Context {A : Type} {dtype : Dtype A}.

(** [max(indices)]: the builtin iterates and keeps the largest element;
    on an empty sequence it raises [ValueError]. *)
Definition py_max (indices : list Z) : result Z :=
  match indices with
  | [] => Raise (ValueError "max() arg is an empty sequence")
  | i :: rest => Ok (fold_left Z.max rest i)
  end.

(** [np.full(shape, fill_value)] for a one-dimensional shape. *)
Definition np_full (shape : number) (fill_value : A) : result (list A) :=
  match shape with
  | FloatNaN =>
      Raise (TypeError "'float' object cannot be interpreted as an integer")
  | Int n =>
      if n <? 0 then Raise (ValueError "negative dimensions are not allowed")
      else Ok (replicate (Z.to_nat n) fill_value)
  end.

(** Position addressed by index [i] in an array of length [n]. *)
Definition np_index (n : nat) (i : Z) : result nat :=
  if (0 <=? i) && (i <? Z.of_nat n) then Ok (Z.to_nat i)
  else if (- Z.of_nat n <=? i) && (i <? 0) then Ok (Z.to_nat (i + Z.of_nat n))
  else Raise (IndexError "index is out of bounds").

(** The values of [vector[indices] = values] after broadcasting: as many
    values as indices, or a single value repeated. *)
Definition np_broadcast (n : nat) (values : list A) : result (list A) :=
  if Nat.eqb (length values) n then Ok values
  else match values with
       | [v] => Ok (replicate n v)
       | _ => Raise (ValueError "shape mismatch: value array could not be broadcast to indexing result")
       end.

(** The writes of [vector[indices] = values], in iteration order. *)
Fixpoint np_scatter (vector : list A) (writes : list (Z * A)) : result (list A) :=
  match writes with
  | [] => Ok vector
  | (i, v) :: rest =>
      let? p := np_index (length vector) i in
      np_scatter (<[p := v]> vector) rest
  end.

(** The values of an assignment as an array of the dtype of the target,
    which is the dtype of [fill_value]. *)
Fixpoint np_asarray (fill_value : A) (values : list A) : result (list A) :=
  match values with
  | [] => Ok []
  | v :: rest =>
      let? v := astype fill_value v in
      let? rest := np_asarray fill_value rest in
      Ok (v :: rest)
  end.

(** [vector[indices] = values] for a [vector] made by
    [np.full(_, fill_value)]: the values are converted to the dtype of the
    vector, broadcast against the indices, and written. *)
Definition np_setitem (fill_value : A) (vector : list A) (indices : list Z)
    (values : list A) : result (list A) :=
  let? values := np_asarray fill_value values in
  let? values := np_broadcast (length indices) values in
  np_scatter vector (combine indices values).

(** [create_vector(indices, values, fill_value, shape)], lines 17-23.
    [shape = None] is Python's [None]. *)
Definition create_vector (indices : list Z) (values : list A) (fill_value : A)
    (shape : option number) : result (list A) :=
  let? shape :=
    match shape with
    | None => let? m := py_max indices in Ok (Int (m + 1))
    | Some s => Ok s
    end in
  let? vector := np_full shape fill_value in
  np_setitem fill_value vector indices values.

End Numpy.

(** ** The tables and the model handed to the accessor

    The flat tables are pandas data frames produced by the model
    ([m.variables.flat], [m.constraints.flat]); they are kept column by
    column.  The columns of a table have the length of its index; the row
    count is read off the [key] column.  The [solution] and [dual] columns
    exist only once a solve has stored them.  The [labels] column is an
    int64 column: its values fit 64 bits. *)

Module Vars.
Record t : Type := {
  key : list Z;
  labels : list Z;
  lower : list float;
  upper : list float;
  solution : option (list float);
  labels_int64 : Is_true (forallb fits_int64 labels)
}.
End Vars.

Module Cons.
Record t : Type := {
  key : list Z;
  labels : list Z;
  sign : list string;
  rhs : list float;
  dual : option (list float);
  labels_int64 : Is_true (forallb fits_int64 labels)
}.

(** [df.empty] *)
Definition empty (df : t) : bool := Nat.eqb (length (key df)) 0.
End Cons.

(** A scipy sparse matrix, as the list of its rows.  An entry that a row
    does not list is an implicit zero. *)
Record matrix : Type := {
  ncols : nat;
  rows : list (list float)
}.

(** [M[indices]]: the rows selected by an index array. *)
Fixpoint take_rows_of (rws : list (list float)) (indices : list Z)
  : result (list (list float)) :=
  match indices with
  | [] => Ok []
  | i :: rest =>
      let? p := np_index (length rws) i in
      let? tl := take_rows_of rws rest in
      Ok (nth p rws [] :: tl)
  end.

Definition take_rows (M : matrix) (indices : list Z) : result matrix :=
  let? rws := take_rows_of (rows M) indices in
  Ok {| ncols := ncols M; rows := rws |}.

(** [M[:, indices]]: the columns selected by an index array. *)
Fixpoint col_positions (n : nat) (indices : list Z) : result (list nat) :=
  match indices with
  | [] => Ok []
  | i :: rest =>
      let? p := np_index n i in
      let? tl := col_positions n rest in
      Ok (p :: tl)
  end.

Definition take_cols (M : matrix) (indices : list Z) : result matrix :=
  let? ps := col_positions (ncols M) indices in
  Ok {| ncols := length indices;
        rows := map (fun row => map (fun p => nth p row 0%float) ps) (rows M) |}.

(** The objective expression with its flattened term table
    ([m.objective.flat]): columns [vars], [coeffs] for a linear expression
    and [vars1], [vars2], [coeffs] for a quadratic one, which also carries
    its coefficient matrix ([to_matrix()]). *)
Inductive expression : Type :=
  | LinearExpression (flat : list (Z * float))
  | QuadraticExpression (flat : list (Z * Z * float)) (Qfull : matrix).

(** What the accessor reads from the model: [m.status], the names of
    [m.variables] in iteration order, each with the labels of its own flat
    table ([m.variables[name].flat.labels]), the names held by [m.binaries]
    and [m.integers], [m.variables.flat], [m.constraints.flat],
    [m.constraints.to_matrix(filter_missings=False)] and
    [m.objective.expression].

    Modelled from the spec: [xCounter] is [m._xCounter], which the tests
    read and [matrices.py] does not: the number of variable entries
    declared so far, masked ones included.  The labels are handed out from
    this counter; a masked entry has no row in [m.variables.flat]. *)
Record Model : Type := {
  status : string;
  xCounter : nat;
  variables : list (string * list Z);
  binaries : list string;
  integers : list string;
  variables_flat : Vars.t;
  constraints_flat : Cons.t;
  constraints_to_matrix : option matrix;
  objective_expression : expression
}.

(** Modelled from the spec: [Model.is_linear] is not part of these
    sources; the objective is purely linear exactly when its expression is
    not a quadratic expression. *)
Definition is_linear (m : Model) : bool :=
  match objective_expression m with
  | LinearExpression _ => true
  | QuadraticExpression _ _ => false
  end.

(** [m.objective.expression.to_matrix()] *)
Definition to_matrix (e : expression) : result matrix :=
  match e with
  | QuadraticExpression _ M => Ok M
  | LinearExpression _ =>
      Raise (AttributeError "'LinearExpression' object has no attribute 'to_matrix'")
  end.

(** ** The instance dictionary and the accessor monad *)

Record cache : Type := {
  d_flat_vars : option Vars.t;
  d_flat_cons : option Cons.t;
  d_sol : option (list float);
  d_dual : option (list float)
}.

(** The dictionary of a new accessor: [__init__] stores only [_parent]. *)
Definition empty_cache : cache :=
  {| d_flat_vars := None; d_flat_cons := None; d_sol := None; d_dual := None |}.

Definition set_flat_vars (v : option Vars.t) (d : cache) : cache :=
  {| d_flat_vars := v; d_flat_cons := d_flat_cons d;
     d_sol := d_sol d; d_dual := d_dual d |}.
Definition set_flat_cons (v : option Cons.t) (d : cache) : cache :=
  {| d_flat_vars := d_flat_vars d; d_flat_cons := v;
     d_sol := d_sol d; d_dual := d_dual d |}.
Definition set_sol (v : option (list float)) (d : cache) : cache :=
  {| d_flat_vars := d_flat_vars d; d_flat_cons := d_flat_cons d;
     d_sol := v; d_dual := d_dual d |}.
Definition set_dual (v : option (list float)) (d : cache) : cache :=
  {| d_flat_vars := d_flat_vars d; d_flat_cons := d_flat_cons d;
     d_sol := d_sol d; d_dual := v |}.

(** [name in self.__dict__], for the names of cached properties. *)
Definition in_dict (name : string) (d : cache) : bool :=
  if String.eqb name "flat_vars" then bool_decide (is_Some (d_flat_vars d))
  else if String.eqb name "flat_cons" then bool_decide (is_Some (d_flat_cons d))
  else if String.eqb name "sol" then bool_decide (is_Some (d_sol d))
  else if String.eqb name "dual" then bool_decide (is_Some (d_dual d))
  else false.

(** The dictionary after [delattr(self, name)] has removed the entry. *)
Definition remove (name : string) (d : cache) : cache :=
  if String.eqb name "flat_vars" then set_flat_vars None d
  else if String.eqb name "flat_cons" then set_flat_cons None d
  else if String.eqb name "sol" then set_sol None d
  else if String.eqb name "dual" then set_dual None d
  else d.

Definition acc (A : Type) : Type := cache -> result A * cache * nat.

Definition ret {A} (a : A) : acc A := fun d => (Ok a, d, 0%nat).
Definition raise {A} (e : exn) : acc A := fun d => (Raise e, d, 0%nat).
Definition lift {A} (r : result A) : acc A := fun d => (r, d, 0%nat).

Definition bind {A B} (x : acc A) (k : A -> acc B) : acc B :=
  fun d =>
    match x d with
    | (Ok a, d1, n1) => let '(r, d2, n2) := k a d1 in (r, d2, (n1 + n2)%nat)
    | (Raise e, d1, n1) => (Raise e, d1, n1)
    end.

Notation "'do' x '<-' m ';' k" := (bind m (fun x => k))
  (at level 10, x name, m at level 100, k at level 200).

(** [delattr(self, name)] / [del self.name]: a cached property is a
    non-data descriptor, so the entry is removed from the dictionary and a
    missing entry raises. *)
Definition delattr (name : string) : acc unit :=
  fun d => if in_dict name d then (Ok tt, remove name d, 0%nat)
           else (Raise (AttributeError name), d, 0%nat).

(** A call of [create_vector], counted. *)
Definition call_create_vector {A} {dtype : Dtype A} (indices : list Z)
    (values : list A) (fill_value : A) (shape : option number) : acc (list A) :=
  fun d => (create_vector indices values fill_value shape, d, 1%nat).

(** [functools.cached_property]: return the entry of the dictionary if
    there is one; otherwise run the function and store what it returns.
    Nothing is stored when the function raises. *)
Definition cached_property {A} (get : cache -> option A)
    (set : option A -> cache -> cache) (func : acc A) : acc A :=
  fun d =>
    match get d with
    | Some v => (Ok v, d, 0%nat)
    | None =>
        match func d with
        | (Ok v, d1, n) => (Ok v, set (Some v) d1, n)
        | (Raise e, d1, n) => (Raise e, d1, n)
        end
    end.

(** ** pandas operations used by [vtypes] and [c] *)

(** [mapper[x]] for a Series with index [index] and values [vals]; [None]
    is the [nan] that a label gets which the index does not hold. *)
Fixpoint series_get {V} (index : list Z) (vals : list V) (x : Z) : option V :=
  match index, vals with
  | i :: index', v :: vals' => if i =? x then Some v else series_get index' vals' x
  | _, _ => None
  end.

(** [xs.map(mapper)] with a Series as the mapper: pandas refuses a mapper
    whose index holds a value twice. *)
Definition series_map {V} (xs : list Z) (index : list Z) (vals : list V)
  : result (list (option V)) :=
  if bool_decide (NoDup index) then Ok (map (series_get index vals) xs)
  else Raise (InvalidIndexError "Reindexing only valid with uniquely valued Index objects").

(** [pd.concat(specs)] of Series, as (index, value) pairs: an empty list
    of Series is refused. *)
Definition pd_concat {V} (specs : list (list (Z * V))) : result (list (Z * V)) :=
  match specs with
  | [] => Raise (ValueError "No objects to concatenate")
  | _ => Ok (concat specs)
  end.

(** [column.max()]: [nan] for an empty column. *)
Definition series_max (column : list Z) : number :=
  match column with
  | [] => FloatNaN
  | i :: rest => Int (fold_left Z.max rest i)
  end.

Definition number_add (x : number) (k : Z) : number :=
  match x with
  | Int z => Int (z + k)
  | FloatNaN => FloatNaN
  end.

(** The integers of an index array, if it is one: a [nan] makes it an
    array of floats. *)
Fixpoint as_ints (xs : list (option Z)) : option (list Z) :=
  match xs with
  | [] => Some []
  | Some z :: rest => option_map (cons z) (as_ints rest)
  | None :: _ => None
  end.

(** ** The class [MatrixAccessor] *)

Module MatrixAccessor.

(** Lines 34-40.  The loop body, then the loop. *)
Definition clean_one (cached_prop : string) : acc unit :=
  fun d => if in_dict cached_prop d then delattr cached_prop d else ret tt d.

Fixpoint clean_each (names : list string) : acc unit :=
  match names with
  | [] => ret tt
  | cached_prop :: rest => do _ <- clean_one cached_prop; clean_each rest
  end.

Definition clean_cached_properties : acc unit :=
  clean_each ["flat_vars"; "flat_cons"; "sol"; "dual"].

Section Methods.
Variable m : Model.

(** Lines 42-50. *)
Definition flat_vars : acc Vars.t :=
  cached_property d_flat_vars set_flat_vars (ret (variables_flat m)).

Definition flat_cons : acc Cons.t :=
  cached_property d_flat_cons set_flat_cons (ret (constraints_flat m)).

(** Lines 52-56. *)
Definition vlabels : acc (list Z) :=
  do df <- flat_vars;
  call_create_vector (Vars.key df) (Vars.labels df) (-1) None.

(** Lines 58-75.  The mapped column holds the type codes, and [None] (the
    float [nan]) for a label that no variable of [m.variables] holds; the
    array filled with the empty string stores that as the string ["n"]. *)
Definition vtypes : acc (list (option string)) :=
  do df <- flat_vars;
  let specs :=
    map (fun name_labels : string * list Z =>
           let name := name_labels.1 in
           let val :=
             if bool_decide (name ∈ binaries m) then "B"
             else if bool_decide (name ∈ integers m) then "I"
             else "C" in
           map (fun l => (l, val)) name_labels.2)
        (variables m) in
  do ds <- lift (pd_concat specs);
  do ds <- lift (series_map (Vars.labels df) (map fst ds) (map snd ds));
  call_create_vector (Vars.key df) ds (Some "") None.

(** Lines 77-81. *)
Definition lb : acc (list float) :=
  do df <- flat_vars;
  call_create_vector (Vars.key df) (Vars.lower df) nan None.

(** Lines 83-91. *)
Definition sol : acc (list float) :=
  cached_property d_sol set_sol
    (if negb (String.eqb (status m) "ok")
     then raise (ValueError "Model is not optimized.")
     else
       do df0 <- flat_vars;
       do _ <- match Vars.solution df0 with
               | None => delattr "flat_vars"
               | Some _ => ret tt
               end;
       do df <- flat_vars;
       match Vars.solution df with
       | None =>
           raise (AttributeError "'DataFrame' object has no attribute 'solution'")
       | Some solution => call_create_vector (Vars.key df) solution nan None
       end).

(** Lines 93-105. *)
Definition dual : acc (list float) :=
  cached_property d_dual set_dual
    (if negb (String.eqb (status m) "ok")
     then raise (ValueError "Model is not optimized.")
     else
       do df0 <- flat_cons;
       do _ <- match Cons.dual df0 with
               | None => delattr "flat_cons"
               | Some _ => ret tt
               end;
       do df <- flat_cons;
       match Cons.dual df with
       | None =>
           raise (AttributeError
                    "Underlying is optimized but does not have dual values stored.")
       | Some dual => call_create_vector (Cons.key df) dual nan None
       end).

(** Lines 107-111. *)
Definition ub : acc (list float) :=
  do df <- flat_vars;
  call_create_vector (Vars.key df) (Vars.upper df) nan None.

(** Lines 113-119. *)
Definition clabels : acc (list Z) :=
  do df <- flat_cons;
  if Cons.empty df then ret []
  else call_create_vector (Cons.key df) (Cons.labels df) (-1) None.

(** Lines 121-126. *)
Definition A : acc (option matrix) :=
  match constraints_to_matrix m with
  | None => ret None
  | Some A =>
      do r <- clabels;
      do A1 <- lift (take_rows A r);
      do c <- vlabels;
      do A2 <- lift (take_cols A1 c);
      ret (Some A2)
  end.

(** Lines 128-132.  [astype("<U1")] keeps the first character. *)
Definition sense : acc (list string) :=
  do df <- flat_cons;
  call_create_vector (Cons.key df) (map (String.substring 0 1) (Cons.sign df)) "" None.

(** Lines 134-138. *)
Definition b : acc (list float) :=
  do df <- flat_cons;
  call_create_vector (Cons.key df) (Cons.rhs df) nan None.

(** Lines 144-147: the term table [ds] with its columns [vars] and
    [coeffs]. *)
Definition objective_terms : list (Z * float) :=
  match objective_expression m with
  | LinearExpression flat => flat
  | QuadraticExpression flat _ =>
      let ds := filter (fun t => (t.1.1 =? -1) || (t.1.2 =? -1)) flat in
      map (fun t => (if negb (t.1.1 =? -1) then t.1.1 else t.1.2, t.2)) ds
  end.

(** Lines 140-151. *)
Definition c : acc (list float) :=
  let ds := objective_terms in
  do df <- flat_vars;
  do vars <- lift (series_map (map fst ds) (Vars.labels df) (Vars.key df));
  do df' <- flat_vars;
  let shape := number_add (series_max (Vars.key df')) 1 in
  match as_ints vars with
  | Some indices =>
      call_create_vector indices (map snd ds) 0%float (Some shape)
  | None =>
      (* an index array of floats: [np.full] runs, the assignment raises *)
      fun d =>
        (let? _ := np_full shape 0%float in
         Raise (IndexError "arrays used as indices must be of integer (or boolean) type"),
         d, 1%nat)
  end.

(** Lines 153-160. *)
Definition Q : acc (option matrix) :=
  if is_linear m then ret None
  else
    do M <- lift (to_matrix (objective_expression m));
    do r <- vlabels;
    do M1 <- lift (take_rows M r);
    do c <- vlabels;
    do M2 <- lift (take_cols M1 c);
    ret (Some M2).

End Methods.

End MatrixAccessor.

(** ** Attribute access by name

    The views of the accessor, and [getattr(self, name)] for each of them,
    so that statements can range over all views and over sequences of
    reads. *)

Inductive view : Type :=
  | V_flat_vars | V_flat_cons | V_vlabels | V_vtypes | V_lb | V_sol | V_dual
  | V_ub | V_clabels | V_A | V_sense | V_b | V_c | V_Q.

#[global] Instance view_eq_dec : EqDecision view.
Proof. solve_decision. Defined.

Inductive value : Type :=
  | VarTable (df : Vars.t)
  | ConTable (df : Cons.t)
  | IntVector (v : list Z)
  | FloatVector (v : list float)
  | StrVector (v : list string)
  | TypeVector (v : list (option string))
  | OptMatrix (M : option matrix).

Definition amap {A B} (f : A -> B) (x : acc A) : acc B :=
  do a <- x; ret (f a).

Definition getattr (m : Model) (v : view) : acc value :=
  match v with
  | V_flat_vars => amap VarTable (MatrixAccessor.flat_vars m)
  | V_flat_cons => amap ConTable (MatrixAccessor.flat_cons m)
  | V_vlabels => amap IntVector (MatrixAccessor.vlabels m)
  | V_vtypes => amap TypeVector (MatrixAccessor.vtypes m)
  | V_lb => amap FloatVector (MatrixAccessor.lb m)
  | V_sol => amap FloatVector (MatrixAccessor.sol m)
  | V_dual => amap FloatVector (MatrixAccessor.dual m)
  | V_ub => amap FloatVector (MatrixAccessor.ub m)
  | V_clabels => amap IntVector (MatrixAccessor.clabels m)
  | V_A => amap OptMatrix (MatrixAccessor.A m)
  | V_sense => amap StrVector (MatrixAccessor.sense m)
  | V_b => amap FloatVector (MatrixAccessor.b m)
  | V_c => amap FloatVector (MatrixAccessor.c m)
  | V_Q => amap OptMatrix (MatrixAccessor.Q m)
  end.

(** The dictionary after a computation. *)
Definition cache_after {A} (x : acc A) (d : cache) : cache := (x d).1.2.

(** The dictionary after a sequence of reads, each on the state the model
    has when the read happens; results and exceptions are dropped. *)
Definition reads (trace : list (Model * view)) (d : cache) : cache :=
  fold_left (fun d mv => cache_after (getattr mv.1 mv.2) d) trace d.

(** ** Notions used in the statements *)

(** The value that a sequence of writes leaves at index [i], if any of
    them addresses it: the last such write. *)
Fixpoint last_write {A} (writes : list (Z * A)) (i : Z) : option A :=
  match writes with
  | [] => None
  | (j, v) :: rest =>
      match last_write rest i with
      | Some w => Some w
      | None => if j =? i then Some v else None
      end
  end.

(** Modelled from the spec: the flat tables come from the model's
    flattening routines, which are not part of these sources.  Their keys
    are exactly [0 .. N-1], with [N] the number of rows. *)
Definition keys_dense (keys : list Z) : Prop :=
  forall k, k ∈ keys <-> 0 <= k < Z.of_nat (length keys).

(** Modelled from the spec: the invariant of the flat variable table.  One
    label per row, dense keys, and labels that may repeat the sentinel
    [-1] but are otherwise unique. *)
Record flat_vars_ok (df : Vars.t) : Prop := {
  ok_rows : length (Vars.labels df) = length (Vars.key df);
  ok_keys : keys_dense (Vars.key df);
  ok_labels : forall i j l,
    Vars.labels df !! i = Some l -> Vars.labels df !! j = Some l ->
    l <> -1 -> i = j
}.

(** Every run of [x] takes a dictionary to an [R]-related one. *)
Definition preserves (R : cache -> cache -> Prop) {A} (x : acc A) : Prop :=
  forall d, R d (cache_after x d).

(** A read never drops or replaces a cached vector. *)
Definition keeps_cached_vectors (d d' : cache) : Prop :=
  (forall x, d_sol d = Some x -> d_sol d' = Some x) /\
  (forall x, d_dual d = Some x -> d_dual d' = Some x).

(** A read leaves the cached vectors alone, and a cached table is either
    left alone or, if the read may touch it ([bv] for the variable table,
    [bc] for the constraint table), is now the table of the model in
    state [m]. *)
Definition refreshes (m : Model) (bv bc : bool) (d d' : cache) : Prop :=
  d_sol d' = d_sol d /\ d_dual d' = d_dual d /\
  (d_flat_vars d' = d_flat_vars d \/
   (bv = true /\ d_flat_vars d' = Some (variables_flat m))) /\
  (d_flat_cons d' = d_flat_cons d \/
   (bc = true /\ d_flat_cons d' = Some (constraints_flat m))).

(** The flat tables that a view reads (through [self.flat_vars] and
    [self.flat_cons]). *)
Definition reads_vars (v : view) : bool :=
  match v with
  | V_flat_vars | V_vlabels | V_vtypes | V_lb | V_sol | V_ub | V_A | V_c
  | V_Q => true
  | V_flat_cons | V_dual | V_clabels | V_sense | V_b => false
  end.

Definition reads_cons (v : view) : bool :=
  match v with
  | V_flat_cons | V_dual | V_clabels | V_A | V_sense | V_b => true
  | V_flat_vars | V_vlabels | V_vtypes | V_lb | V_sol | V_ub | V_c | V_Q => false
  end.

(** A term of a quadratic objective is linear when one of its two factor
    slots holds the sentinel; its variable is then the label in the other
    slot. *)
Definition linear_term (t : Z * Z * float) : Prop :=
  t.1.1 = -1 \/ t.1.2 = -1.

Definition real_label (t : Z * Z * float) : Z :=
  if decide (t.1.1 = -1) then t.1.2 else t.1.1.

(** Sample tables: a variable table with two masked entries, and the
    coefficient vector of the sample objective. *)
Definition masked_vars : Vars.t :=
  {| Vars.key := [0; 1; 2; 3]; Vars.labels := [5; -1; 7; -1];
     Vars.lower := [0; 0; 4; 4]%float; Vars.upper := [1; 1; 8; 10]%float;
     Vars.solution := None; Vars.labels_int64 := I |}.

(** The entry of a matrix at a position. *)
Definition entry (M : matrix) (i j : nat) : float :=
  nth j (nth i (rows M) []) 0%float.

(** ** Sample models

    The fixture of the test file: [x] and [y] with two entries each
    (labels and keys 0..3, bounds [0, 1] and [4, 8], [4, 10]), with two
    constraints, before and after a solve. *)

Definition xy_vars (solution : option (list float)) : Vars.t :=
  {| Vars.key := [0; 1; 2; 3]; Vars.labels := [0; 1; 2; 3];
     Vars.lower := [0; 0; 4; 4]%float; Vars.upper := [1; 1; 8; 10]%float;
     Vars.solution := solution; Vars.labels_int64 := I |}.

Definition two_cons (dual : option (list float)) : Cons.t :=
  {| Cons.key := [0; 1]; Cons.labels := [0; 1]; Cons.sign := ["<="; ">="];
     Cons.rhs := [10; 4]%float; Cons.dual := dual;
     Cons.labels_int64 := I |}.

Definition three_cons (dual : option (list float)) : Cons.t :=
  {| Cons.key := [0; 1; 2]; Cons.labels := [0; 1; 2]; Cons.sign := ["<="; ">="; "="];
     Cons.rhs := [10; 4; 5]%float; Cons.dual := dual;
     Cons.labels_int64 := I |}.

Definition no_cons : Cons.t :=
  {| Cons.key := []; Cons.labels := []; Cons.sign := []; Cons.rhs := [];
     Cons.dual := None; Cons.labels_int64 := I |}.

Definition identity4 : list (list float) :=
  [[1; 0; 0; 0]; [0; 1; 0; 0]; [0; 0; 1; 0]; [0; 0; 0; 1]]%float.

(** The objective [x * y + 2 x] of the sample model. *)
Definition xy_objective : expression :=
  QuadraticExpression
    [(0, 2, 1%float); (1, 3, 1%float); (0, -1, 2%float); (-1, 1, 2%float)]
    {| ncols := 4;
       rows := [[0; 0; 1; 0]; [0; 0; 0; 1]; [1; 0; 0; 0]; [0; 1; 0; 0]]%float |}.

Definition sample (st : string) (vars : Vars.t) (cons : Cons.t) (obj : expression) : Model :=
  {| status := st; xCounter := 4;
     variables := [("x", [0; 1]); ("y", [2; 3])]; binaries := []; integers := ["y"];
     variables_flat := vars; constraints_flat := cons;
     constraints_to_matrix := None; objective_expression := obj |}.

(** Before the solve, after a solve that stored solution and duals, after
    a solve that stored no duals, and after a later solve that failed. *)
Definition unsolved : Model :=
  sample "initialized" (xy_vars None) (two_cons None) xy_objective.
Definition solved : Model :=
  sample "ok" (xy_vars (Some [1; 1; 4; 4]%float)) (two_cons (Some [0; 2]%float)) xy_objective.
Definition solved_no_duals : Model :=
  sample "ok" (xy_vars (Some [1; 1; 4; 4]%float)) (three_cons None) xy_objective.
Definition failed_resolve : Model :=
  sample "warning" (xy_vars None) (two_cons None) xy_objective.
Definition linear_model : Model :=
  sample "initialized" (xy_vars None) no_cons (LinearExpression [(0, 2%float); (3, 1%float)]).

(** ** Notions used in the further properties *)

(** The index that numpy reads a negative index as, in an array of length
    [n]. *)
Definition wrap_index (n : Z) (i : Z) : Z :=
  if i <? 0 then i + n else i.

(** A read leaves the cached vectors alone and never replaces a cached
    table: it leaves a table as it is or, if the read may touch it, fills
    an absent one with the table of the model in state [m]. *)
Definition fills (m : Model) (bv bc : bool) (d d' : cache) : Prop :=
  d_sol d' = d_sol d /\ d_dual d' = d_dual d /\
  (d_flat_vars d' = d_flat_vars d \/
   (bv = true /\ d_flat_vars d = None /\ d_flat_vars d' = Some (variables_flat m))) /\
  (d_flat_cons d' = d_flat_cons d \/
   (bc = true /\ d_flat_cons d = None /\ d_flat_cons d' = Some (constraints_flat m))).

(** A computation is settled after one run: on the dictionary it leaves,
    and on any dictionary that only has more tables filled in, it gives the
    same answer again and changes nothing. *)
Definition settled (m : Model) {A} (x : acc A) : Prop :=
  forall d d2,
    fills m true true (cache_after x d) d2 ->
    (x d2).1.1 = (x d).1.1 /\ cache_after x d2 = d2.

(** The sample model after a second solve, with another solution and
    other duals than [solved]. *)
Definition resolved : Model :=
  sample "ok" (xy_vars (Some [0; 0; 8; 10]%float)) (two_cons (Some [3; 0]%float))
    xy_objective.

(** A model with a masked entry: [x] with two entries and [y] with three,
    the second of which (label 3) is masked.  The flat variable table has
    the four entries that are left, and the objective is
    [x0 * y0 + 2 x0 + 3 y2]. *)
Definition one_masked_vars : Vars.t :=
  {| Vars.key := [0; 1; 2; 3]; Vars.labels := [0; 1; 2; 4];
     Vars.lower := [0; 0; 4; 4]%float; Vars.upper := [1; 1; 8; 10]%float;
     Vars.solution := None; Vars.labels_int64 := I |}.

Definition one_masked : Model :=
  {| status := "initialized"; xCounter := 5;
     variables := [("x", [0; 1]); ("y", [2; 4])]; binaries := []; integers := ["y"];
     variables_flat := one_masked_vars; constraints_flat := no_cons;
     constraints_to_matrix := None;
     objective_expression :=
       QuadraticExpression
         [(0, 2, 1%float); (0, -1, 2%float); (-1, 4, 3%float)]
         {| ncols := 5;
            rows := [[0; 0; 1; 0; 0]; [0; 0; 0; 0; 0]; [1; 0; 0; 0; 0];
                     [0; 0; 0; 0; 0]; [0; 0; 0; 0; 0]]%float |} |}.

(** A model in which the label 1 belongs to two variables. *)
Definition overlapping : Model :=
  {| status := "initialized"; xCounter := 4;
     variables := [("x", [0; 1]); ("y", [1; 2; 3])];
     binaries := []; integers := [];
     variables_flat := xy_vars None; constraints_flat := no_cons;
     constraints_to_matrix := None;
     objective_expression := LinearExpression [(0, 2%float); (9, 1%float)] |}.

(** The sample model with a constraint matrix over its two constraints and
    four variables, and with [x] declared binary as well as integer. *)
Definition with_matrix : Model :=
  {| status := "initialized"; xCounter := 4;
     variables := [("x", [0; 1]); ("y", [2; 3])];
     binaries := ["x"]; integers := ["x"; "y"];
     variables_flat := xy_vars None; constraints_flat := two_cons None;
     constraints_to_matrix :=
       Some {| ncols := 4; rows := [[1; 0; 2; 0]; [0; 1; 0; 3]]%float |};
     objective_expression := LinearExpression [(0, 2%float); (3, 1%float); (0, 5%float)] |}.

(** * Properties *)

Example create_vector_ex1 :
  create_vector [2; 0; 2] ["a"; "b"; "c"] "" None = Ok ["b"; ""; "c"].
Proof. reflexivity. Qed.

Example create_vector_ex_nan :
  create_vector [1] [0.5%float] nan (Some (Int 3)) = Ok [nan; 0.5%float; nan].
Proof. reflexivity. Qed.

(** ** The scatter primitive *)

Section ScatterFacts.
Context {A : Type} {dtype : Dtype A}.
Implicit Types (vector : list A) (writes : list (Z * A)) (idx : list Z).

Lemma np_index_in_range (n : nat) (i : Z) :
  0 <= i < Z.of_nat n -> np_index n i = Ok (Z.to_nat i).
Proof.
  intros [H0 Hn]. unfold np_index.
  apply Z.leb_le in H0. apply Z.ltb_lt in Hn. by rewrite H0, Hn.
Qed.

Lemma np_scatter_spec writes : forall vector,
  Forall (fun w => 0 <= w.1 < Z.of_nat (length vector)) writes ->
  exists vector',
    np_scatter vector writes = Ok vector' /\
    length vector' = length vector /\
    forall p : nat,
      vector' !! p = match last_write writes (Z.of_nat p) with
                     | Some w => Some w
                     | None => vector !! p
                     end.
Proof.
  induction writes as [|[j v] rest IH]; intros vector Hall.
  - exists vector. by repeat split.
  - apply Forall_cons in Hall as [Hj Hrest]. simpl in Hj.
    simpl. rewrite (np_index_in_range _ _ Hj). simpl.
    destruct (IH (<[Z.to_nat j := v]> vector)) as (v' & Hrun & Hlen & Hget).
    { by rewrite length_insert. }
    exists v'. split; [done|]. rewrite length_insert in Hlen. split; [done|].
    intros p. rewrite Hget.
    destruct (last_write rest (Z.of_nat p)); [done|].
    destruct (Z.eqb_spec j (Z.of_nat p)) as [->|Hne].
    + rewrite Nat2Z.id. apply list_lookup_insert_eq. lia.
    + apply list_lookup_insert_ne. lia.
Qed.

Lemma last_write_absent idx (vals : list A) (i : Z) :
  i ∉ idx -> last_write (combine idx vals) i = None.
Proof.
  revert vals. induction idx as [|j idx IH]; intros vals Hi; [done|].
  destruct vals as [|v vals]; [done|]. simpl.
  apply not_elem_of_cons in Hi as [Hne Hi]. rewrite (IH _ Hi).
  destruct (Z.eqb_spec j i); [congruence | done].
Qed.

Lemma last_write_last_occurrence idx (vals : list A) (j : nat) (i : Z) :
  length vals = length idx ->
  idx !! j = Some i ->
  (forall j', (j < j')%nat -> idx !! j' <> Some i) ->
  last_write (combine idx vals) i = vals !! j.
Proof.
  revert vals j. induction idx as [|k idx IH]; intros vals j Hlen Hj Hlast; [done|].
  destruct vals as [|v vals]; [done|]. simpl in Hlen. simpl.
  destruct j as [|j]; simpl in *.
  - injection Hj as ->. rewrite last_write_absent.
    + by rewrite Z.eqb_refl.
    + intros Hin. apply list_elem_of_lookup in Hin as [j' Hj'].
      apply (Hlast (S j')); [lia | done].
  - rewrite (IH vals j); [| lia | done |].
    + destruct (vals !! j) eqn:Hv; [done|].
      apply lookup_ge_None in Hv. apply lookup_lt_Some in Hj. lia.
    + intros j' Hlt. apply (Hlast (S j')). lia.
Qed.

Lemma fold_left_max_ge (l : list Z) : forall a,
  a <= fold_left Z.max l a /\ forall i, i ∈ l -> i <= fold_left Z.max l a.
Proof.
  induction l as [|x l IH]; intros a; simpl.
  - split; [lia|]. intros i Hi. by apply elem_of_nil in Hi.
  - destruct (IH (Z.max a x)) as [Ha Hl]. split; [lia|].
    intros i Hi. apply elem_of_cons in Hi as [->|Hi]; [lia | by apply Hl].
Qed.

Lemma fold_left_max_elem (l : list Z) : forall a,
  fold_left Z.max l a = a \/ fold_left Z.max l a ∈ l.
Proof.
  induction l as [|x l IH]; intros a; simpl; [by left|].
  destruct (IH (Z.max a x)) as [-> | Hin].
  - destruct (Z.max_spec a x) as [[_ ->] | [_ ->]]; [right; left | by left].
  - right. by right.
Qed.

(** The maximum that [create_vector] computes is the greatest element. *)
Lemma py_max_spec idx :
  idx <> [] ->
  exists m, py_max idx = Ok m /\ m ∈ idx /\ forall i, i ∈ idx -> i <= m.
Proof.
  destruct idx as [|a l]; [done|]. intros _.
  exists (fold_left Z.max l a). split; [done|].
  destruct (fold_left_max_ge l a) as [Ha Hl]. split.
  - destruct (fold_left_max_elem l a) as [-> | Hin]; [left | by right].
  - intros i Hi. apply elem_of_cons in Hi as [->|Hi]; [done | by apply Hl].
Qed.

Lemma np_broadcast_same (n : nat) (vals : list A) :
  length vals = n -> np_broadcast n vals = Ok vals.
Proof. intros <-. unfold np_broadcast. by rewrite Nat.eqb_refl. Qed.

Lemma combine_fst_bound idx (vals : list A) (P : Z -> Prop) :
  Forall P idx -> Forall (fun w => P w.1) (combine idx vals).
Proof.
  intros H. revert vals. induction H as [|i idx Hi _ IH]; intros vals; [done|].
  destruct vals; [done|]. constructor; [done | apply IH].
Qed.

(** The converted values, one by one. *)
Lemma np_asarray_Forall2 (fill : A) (vals vals' : list A) :
  np_asarray fill vals = Ok vals' <->
  Forall2 (fun v v' => astype fill v = Ok v') vals vals'.
Proof.
  revert vals'. induction vals as [|v vals IH]; intros vals'; simpl.
  - split.
    + intros [= <-]. constructor.
    + intros Hall. by inversion Hall.
  - split.
    + destruct (astype fill v) as [v1|] eqn:Hv; [|done]. simpl.
      destruct (np_asarray fill vals) as [rest|] eqn:Hrest; [|done]. simpl.
      intros [= <-]. constructor; [done|]. by apply IH.
    + intros Hall. inversion Hall as [|? v1 ? rest Hv Hrest]; subst.
      rewrite Hv. simpl. apply IH in Hrest. by rewrite Hrest.
Qed.

Lemma np_asarray_length (fill : A) (vals vals' : list A) :
  np_asarray fill vals = Ok vals' -> length vals' = length vals.
Proof.
  intros Hrun. apply np_asarray_Forall2 in Hrun.
  symmetry. by eapply Forall2_length.
Qed.

(** Values that already have the dtype of the array are taken as they
    are. *)
Lemma np_asarray_same (fill : A) (vals : list A) :
  Forall (fun v => astype fill v = Ok v) vals -> np_asarray fill vals = Ok vals.
Proof.
  induction 1 as [|v vals Hv _ IH]; [done|]. simpl. by rewrite Hv, IH.
Qed.


(** What [create_vector] returns when every value can be converted and
    every index is a position of the array it allocates: the array has the
    requested length and each position holds its last write, converted, or
    the fill value. *)
Lemma create_vector_cast_spec idx (vals vals' : list A) (fill : A)
    (shape : option number) (n : Z) :
  length vals = length idx ->
  match shape with
  | None => exists m, py_max idx = Ok m /\ n = m + 1
  | Some s => s = Int n
  end ->
  Forall (fun i => 0 <= i < n) idx ->
  0 <= n ->
  np_asarray fill vals = Ok vals' ->
  exists vector,
    create_vector idx vals fill shape = Ok vector /\
    length vector = Z.to_nat n /\
    forall p : nat,
      (p < Z.to_nat n)%nat ->
      vector !! p = Some (default fill (last_write (combine idx vals') (Z.of_nat p))).
Proof.
  intros Hlen Hshape Hidx Hn Hcast.
  assert (Hlen' : length vals' = length idx).
  { by rewrite (np_asarray_length _ _ _ Hcast). }
  assert (Hfull : np_full (Int n) fill = Ok (replicate (Z.to_nat n) fill)).
  { unfold np_full. destruct (Z.ltb_spec n 0); [lia | done]. }
  destruct (np_scatter_spec (combine idx vals') (replicate (Z.to_nat n) fill))
    as (v & Hrun & Hlenv & Hget).
  { apply (combine_fst_bound idx vals'
               (fun i => 0 <= i < Z.of_nat (length (replicate (Z.to_nat n) fill)))).
    rewrite length_replicate.
    eapply Forall_impl; [exact Hidx|]. simpl. intros; lia. }
  exists v. rewrite length_replicate in Hlenv. split; [|split; [done|]].
  - unfold create_vector, np_setitem.
    assert (Hs : match shape with
                 | None => let? m := py_max idx in Ok (Int (m + 1))
                 | Some s => Ok s
                 end = Ok (Int n)).
    { destruct shape as [s|]; [by subst s|].
      destruct Hshape as (m & -> & ->). done. }
    rewrite Hs. unfold rbind at 1. rewrite Hfull. unfold rbind at 1.
    rewrite Hcast. unfold rbind at 1.
    by rewrite (np_broadcast_same _ _ Hlen').
  - intros p Hp. rewrite Hget.
    destruct (last_write (combine idx vals') (Z.of_nat p)); [done|].
    simpl. by apply lookup_replicate_2.
Qed.

(** The same for values that already have the dtype of the array. *)
Lemma create_vector_spec idx (vals : list A) (fill : A) (shape : option number) (n : Z) :
  length vals = length idx ->
  match shape with
  | None => exists m, py_max idx = Ok m /\ n = m + 1
  | Some s => s = Int n
  end ->
  Forall (fun i => 0 <= i < n) idx ->
  0 <= n ->
  np_asarray fill vals = Ok vals ->
  exists vector,
    create_vector idx vals fill shape = Ok vector /\
    length vector = Z.to_nat n /\
    forall p : nat,
      (p < Z.to_nat n)%nat ->
      vector !! p = Some (default fill (last_write (combine idx vals) (Z.of_nat p))).
Proof. apply create_vector_cast_spec. Qed.

End ScatterFacts.

(** Columns of floats and int64 columns have the dtype of the arrays they
    are written to. *)
Lemma np_asarray_float (fill : float) (vals : list float) :
  np_asarray fill vals = Ok vals.
Proof. apply np_asarray_same, Forall_forall. done. Qed.

Lemma np_asarray_int64 (vals : list Z) :
  Is_true (forallb fits_int64 vals) -> np_asarray (-1) vals = Ok vals.
Proof.
  intros Hfit. apply np_asarray_same, Forall_forall. intros v Hv.
  apply Is_true_true in Hfit. rewrite forallb_forall in Hfit.
  unfold astype, int_dtype. simpl.
  rewrite Hfit; [done|]. by apply list_elem_of_In.
Qed.

(** A string longer than the fill string is cut, and an integer that
    int64 cannot hold is refused. *)
Example create_vector_cuts_strings :
  create_vector [0; 1] ["ab"; "cd"] "" None = Ok ["a"; "c"].
Proof. reflexivity. Qed.

Example create_vector_overflow :
  create_vector [0] [9223372036854775808] (-1) None
  = Raise (OverflowError "Python int too large to convert to C long").
Proof. reflexivity. Qed.




(** ** The cached properties *)

Lemma status_not_ok (m : Model) :
  status m <> "ok" -> negb (String.eqb (status m) "ok") = true.
Proof. intros H. apply String.eqb_neq in H. by rewrite H. Qed.

Lemma status_is_ok (m : Model) :
  status m = "ok" -> negb (String.eqb (status m) "ok") = false.
Proof. intros ->. reflexivity. Qed.

(** A cached entry short-cuts the getter. *)
Lemma sol_cached (m : Model) (d : cache) (v : list float) :
  d_sol d = Some v -> MatrixAccessor.sol m d = (Ok v, d, 0%nat).
Proof. intros H. unfold MatrixAccessor.sol, cached_property. by rewrite H. Qed.

Lemma dual_cached (m : Model) (d : cache) (v : list float) :
  d_dual d = Some v -> MatrixAccessor.dual m d = (Ok v, d, 0%nat).
Proof. intros H. unfold MatrixAccessor.dual, cached_property. by rewrite H. Qed.

(** C7.  [clean_cached_properties] removes the entries of all four cached
    properties (both flat tables and both cached views) whatever the
    dictionary holds, so that no cached entry remains; every view read
    afterwards is the one a new accessor computes from the model's current
    state, for instance [vlabels] from the current [m.variables.flat]. *)
Theorem clean_cached_properties_clears_all (d : cache) :
  MatrixAccessor.clean_cached_properties d = (Ok tt, empty_cache, 0%nat) /\
  (forall name, in_dict name (cache_after MatrixAccessor.clean_cached_properties d) = false) /\
  (forall m v,
      getattr m v (cache_after MatrixAccessor.clean_cached_properties d)
      = getattr m v empty_cache) /\
  (forall m,
      MatrixAccessor.vlabels m (cache_after MatrixAccessor.clean_cached_properties d)
      = (create_vector (Vars.key (variables_flat m)) (Vars.labels (variables_flat m))
           (-1) None,
         set_flat_vars (Some (variables_flat m)) empty_cache, 1%nat)).
Proof.
  assert (H : MatrixAccessor.clean_cached_properties d = (Ok tt, empty_cache, 0%nat)).
  { destruct d as [[fv|] [fc|] [s|] [du|]]; reflexivity. }
  unfold cache_after. rewrite H. simpl.
  split; [done|]. split; [|split; [done|]].
  - intros name. unfold in_dict. simpl.
    repeat (destruct (String.eqb name _); [done|]). done.
  - intros m. unfold MatrixAccessor.vlabels, MatrixAccessor.flat_vars, bind,
      cached_property, call_create_vector, ret. simpl.
    by destruct (create_vector _ _ _ _).
Qed.

Lemma sol_raises_not_optimized (m : Model) (d : cache) :
  status m <> "ok" -> d_sol d = None ->
  MatrixAccessor.sol m d = (Raise (ValueError "Model is not optimized."), d, 0%nat).
Proof.
  intros Hst Hnone. apply status_not_ok in Hst.
  unfold MatrixAccessor.sol, cached_property. by rewrite Hnone, Hst.
Qed.

Lemma dual_raises_not_optimized (m : Model) (d : cache) :
  status m <> "ok" -> d_dual d = None ->
  MatrixAccessor.dual m d = (Raise (ValueError "Model is not optimized."), d, 0%nat).
Proof.
  intros Hst Hnone. apply status_not_ok in Hst.
  unfold MatrixAccessor.dual, cached_property. by rewrite Hnone, Hst.
Qed.

(** C2, as amended.  When the status of the model is not ["ok"] and no
    solution (dual) vector is cached from an earlier successful read, a
    request for the solution (dual) vector raises
    [ValueError("Model is not optimized.")] at once: nothing is returned,
    the builder is not entered and the dictionary is left as it was. *)
Theorem sol_dual_not_optimized (m : Model) (d : cache) :
  status m <> "ok" ->
  (d_sol d = None ->
     MatrixAccessor.sol m d = (Raise (ValueError "Model is not optimized."), d, 0%nat)) /\
  (d_dual d = None ->
     MatrixAccessor.dual m d = (Raise (ValueError "Model is not optimized."), d, 0%nat)).
Proof.
  intros Hst. split; intros Hnone.
  - by apply sol_raises_not_optimized.
  - by apply dual_raises_not_optimized.
Qed.

Lemma sol_dual_not_optimized_witness :
  MatrixAccessor.sol unsolved empty_cache
    = (Raise (ValueError "Model is not optimized."), empty_cache, 0%nat) /\
  MatrixAccessor.dual unsolved empty_cache
    = (Raise (ValueError "Model is not optimized."), empty_cache, 0%nat).
Proof.
  destruct (sol_dual_not_optimized unsolved empty_cache) as [Hsol Hdual].
  - simpl. discriminate.
  - split; [apply Hsol | apply Hdual]; reflexivity.
Defined.

(** C2 as stated fails: after one successful read on the solved model the
    vectors are cached, and a read on a model whose status is no longer
    ["ok"] returns them instead of raising. *)
Lemma sol_dual_not_optimized_counterexample :
  status failed_resolve <> "ok" /\
  exists d1 d2,
    MatrixAccessor.sol solved empty_cache = (Ok [1; 1; 4; 4]%float, d1, 1%nat) /\
    MatrixAccessor.dual solved d1 = (Ok [0; 2]%float, d2, 1%nat) /\
    MatrixAccessor.sol failed_resolve d2 = (Ok [1; 1; 4; 4]%float, d2, 0%nat) /\
    MatrixAccessor.dual failed_resolve d2 = (Ok [0; 2]%float, d2, 0%nat).
Proof.
  split; [simpl; discriminate|].
  eexists _, _. repeat split; vm_compute; reflexivity.
Qed.

(** C3.  When the status is ["ok"], the dual getter runs (no dual vector is
    cached), the cached flat constraint table (if any) has no [dual]
    column and the table that the model produces on recomputation has
    none either, the request raises [AttributeError]: an exception of
    another class than the [ValueError] of a model that is not optimized.
    The recomputed table stays in the dictionary and no vector is
    stored. *)
Theorem dual_missing_dual_values (m : Model) (d : cache) :
  status m = "ok" ->
  d_dual d = None ->
  (forall df, d_flat_cons d = Some df -> Cons.dual df = None) ->
  Cons.dual (constraints_flat m) = None ->
  MatrixAccessor.dual m d
    = (Raise (AttributeError
                "Underlying is optimized but does not have dual values stored."),
       set_flat_cons (Some (constraints_flat m)) d, 0%nat) /\
  (forall msg,
      AttributeError "Underlying is optimized but does not have dual values stored."
      <> ValueError msg).
Proof.
  intros Hst Hnone Hcached Hmodel. split; [|done].
  apply status_is_ok in Hst.
  unfold MatrixAccessor.dual, cached_property. rewrite Hnone, Hst.
  unfold bind, MatrixAccessor.flat_cons, cached_property, ret, raise, delattr.
  destruct d as [fv [fc|] s du]; simpl in *.
  - rewrite (Hcached fc eq_refl). simpl. by rewrite Hmodel.
  - rewrite Hmodel. simpl. by rewrite Hmodel.
Qed.

Lemma dual_missing_dual_values_witness :
  MatrixAccessor.dual solved_no_duals empty_cache
    = (Raise (AttributeError
                "Underlying is optimized but does not have dual values stored."),
       set_flat_cons (Some (three_cons None)) empty_cache, 0%nat) /\
  (forall msg,
      AttributeError "Underlying is optimized but does not have dual values stored."
      <> ValueError msg).
Proof.
  apply (dual_missing_dual_values solved_no_duals empty_cache).
  - reflexivity.
  - reflexivity.
  - simpl. discriminate.
  - reflexivity.
Defined.

(** C6.  When the flat constraint table that the accessor reads is empty,
    [clabels] returns the empty array and does not enter the builder (the
    call count is 0); the builder would raise there, on the maximum of an
    empty index sequence. *)
Theorem clabels_empty_table (m : Model) (d d1 : cache) (df : Cons.t) :
  MatrixAccessor.flat_cons m d = (Ok df, d1, 0%nat) ->
  Cons.empty df = true ->
  MatrixAccessor.clabels m d = (Ok [], d1, 0%nat) /\
  create_vector (Cons.key df) (Cons.labels df) (-1) None
    = Raise (ValueError "max() arg is an empty sequence").
Proof.
  intros Hread Hempty. split.
  - unfold MatrixAccessor.clabels, bind. rewrite Hread, Hempty. reflexivity.
  - unfold Cons.empty in Hempty. apply Nat.eqb_eq in Hempty.
    destruct (Cons.key df); [reflexivity | discriminate].
Qed.

Lemma clabels_empty_table_witness :
  MatrixAccessor.clabels linear_model empty_cache
    = (Ok [], set_flat_cons (Some no_cons) empty_cache, 0%nat) /\
  create_vector (Cons.key no_cons) (Cons.labels no_cons) (-1) None
    = Raise (ValueError "max() arg is an empty sequence").
Proof.
  apply (clabels_empty_table linear_model empty_cache); reflexivity.
Defined.

(** ** What a read may change in the dictionary *)

Section Frames.
Variable R : cache -> cache -> Prop.
Hypothesis R_refl : forall d, R d d.
Hypothesis R_trans : forall d1 d2 d3, R d1 d2 -> R d2 d3 -> R d1 d3.

Lemma preserves_ret {A} (a : A) : preserves R (ret a).
Proof. intros d. apply R_refl. Qed.

Lemma preserves_raise {A} (e : exn) : preserves R (@raise A e).
Proof. intros d. apply R_refl. Qed.

Lemma preserves_lift {A} (r : result A) : preserves R (lift r).
Proof. intros d. apply R_refl. Qed.

Lemma preserves_call_create_vector {A} {dtype : Dtype A} idx (vals : list A) fill shape :
  preserves R (call_create_vector idx vals fill shape).
Proof. intros d. apply R_refl. Qed.

Lemma preserves_bind {A B} (x : acc A) (k : A -> acc B) :
  preserves R x -> (forall a, preserves R (k a)) -> preserves R (do a <- x; k a).
Proof.
  intros Hx Hk d. specialize (Hx d). unfold cache_after, bind in *.
  destruct (x d) as [[[a|e] d1] n1]; simpl in *; [|done].
  specialize (Hk a d1). unfold cache_after in Hk.
  destruct (k a d1) as [[r d2] n2]. simpl in *. eauto.
Qed.

Lemma preserves_amap {A B} (f : A -> B) (x : acc A) :
  preserves R x -> preserves R (amap f x).
Proof. intros Hx. apply preserves_bind; [done|]. intros a. apply preserves_ret. Qed.

End Frames.

Lemma preserves_mono (R R' : cache -> cache -> Prop) {A} (x : acc A) :
  (forall d d', R d d' -> R' d d') -> preserves R x -> preserves R' x.
Proof. intros HR Hx d. apply HR, Hx. Qed.

Lemma refreshes_refl m bv bc d : refreshes m bv bc d d.
Proof. unfold refreshes. tauto. Qed.

Lemma refreshes_trans m bv bc d1 d2 d3 :
  refreshes m bv bc d1 d2 -> refreshes m bv bc d2 d3 -> refreshes m bv bc d1 d3.
Proof.
  unfold refreshes. intros (Hs & Hd & Hv & Hc) (Hs' & Hd' & Hv' & Hc').
  rewrite Hs', Hd'. repeat split; try done.
  - destruct Hv' as [->|Hv']; [done | by right].
  - destruct Hc' as [->|Hc']; [done | by right].
Qed.

Lemma refreshes_keeps m bv bc d d' :
  refreshes m bv bc d d' -> keeps_cached_vectors d d'.
Proof. unfold refreshes, keeps_cached_vectors. intros (-> & -> & _). done. Qed.

Lemma keeps_cached_vectors_refl d : keeps_cached_vectors d d.
Proof. by split. Qed.

Lemma keeps_cached_vectors_trans d1 d2 d3 :
  keeps_cached_vectors d1 d2 -> keeps_cached_vectors d2 d3 ->
  keeps_cached_vectors d1 d3.
Proof. unfold keeps_cached_vectors. intros [Hs Hd] [Hs' Hd']. split; eauto. Qed.

Lemma flat_vars_refreshes m bc : preserves (refreshes m true bc) (MatrixAccessor.flat_vars m).
Proof.
  intros [[fv|] fc s du]; unfold refreshes; simpl; tauto.
Qed.

Lemma flat_cons_refreshes m bv : preserves (refreshes m bv true) (MatrixAccessor.flat_cons m).
Proof.
  intros [fv [fc|] s du]; unfold refreshes; simpl; tauto.
Qed.

Create HintDb frame.
#[local] Hint Resolve refreshes_refl refreshes_trans : frame.
#[local] Hint Resolve preserves_ret preserves_raise preserves_lift
  preserves_call_create_vector flat_vars_refreshes flat_cons_refreshes : frame.

(** One step through a method body: a bind, a branch, or a leaf. *)
Ltac frame_step :=
  match goal with
  | |- preserves _ (bind _ _) =>
      apply preserves_bind; [solve [eauto with frame] | | intros ?]
  | |- preserves _ (amap _ _) => unfold amap
  | |- preserves _ (if ?b then _ else _) => destruct b
  | |- preserves _ (match ?o with _ => _ end) => destruct o
  | |- preserves _ (MatrixAccessor.vlabels _) => unfold MatrixAccessor.vlabels
  | |- preserves _ (MatrixAccessor.clabels _) => unfold MatrixAccessor.clabels
  | |- _ => solve [eauto with frame]
  | |- preserves _ _ => intros ?; unfold cache_after; simpl; solve [eauto with frame]
  end.

(** The plain properties only fill or keep the tables they read. *)
Lemma getattr_refreshes (m : Model) (v : view) :
  v <> V_sol -> v <> V_dual ->
  preserves (refreshes m (reads_vars v) (reads_cons v)) (getattr m v).
Proof.
  intros Hs Hd.
  destruct v; try done; simpl;
    unfold MatrixAccessor.vlabels, MatrixAccessor.vtypes, MatrixAccessor.lb,
      MatrixAccessor.ub,
      MatrixAccessor.clabels, MatrixAccessor.A, MatrixAccessor.sense,
      MatrixAccessor.b, MatrixAccessor.c, MatrixAccessor.Q;
    repeat frame_step.
Qed.

(** The same with the finer relation: a cached table is never replaced. *)
Lemma fills_refl m bv bc d : fills m bv bc d d.
Proof. unfold fills. tauto. Qed.

Lemma fills_trans m bv bc d1 d2 d3 :
  fills m bv bc d1 d2 -> fills m bv bc d2 d3 -> fills m bv bc d1 d3.
Proof.
  unfold fills. intros (Hs & Hd & Hv & Hc) (Hs' & Hd' & Hv' & Hc').
  rewrite Hs', Hd'. repeat split; try done.
  - destruct Hv' as [->|(Hb & Hn & Hv')]; [done|].
    destruct Hv as [Hv|(_ & _ & Hv)]; [|congruence].
    right. rewrite <- Hv. done.
  - destruct Hc' as [->|(Hb & Hn & Hc')]; [done|].
    destruct Hc as [Hc|(_ & _ & Hc)]; [|congruence].
    right. rewrite <- Hc. done.
Qed.

Lemma flat_vars_fills m bc : preserves (fills m true bc) (MatrixAccessor.flat_vars m).
Proof. intros [[fv|] fc s du]; unfold fills; simpl; tauto. Qed.

Lemma flat_cons_fills m bv : preserves (fills m bv true) (MatrixAccessor.flat_cons m).
Proof. intros [fv [fc|] s du]; unfold fills; simpl; tauto. Qed.

#[local] Hint Resolve fills_refl fills_trans flat_vars_fills flat_cons_fills : frame.

(** A plain property fills the tables it reads when they are absent and
    changes nothing else. *)
Lemma getattr_fills (m : Model) (v : view) :
  v <> V_sol -> v <> V_dual ->
  preserves (fills m (reads_vars v) (reads_cons v)) (getattr m v).
Proof.
  intros Hs Hd.
  destruct v; try done; simpl;
    unfold MatrixAccessor.vlabels, MatrixAccessor.vtypes, MatrixAccessor.lb,
      MatrixAccessor.ub, MatrixAccessor.clabels, MatrixAccessor.A,
      MatrixAccessor.sense, MatrixAccessor.b, MatrixAccessor.c, MatrixAccessor.Q;
    repeat frame_step.
Qed.

(** The dictionary after [sol] and after [dual], whatever the outcome. *)
Ltac run_getter :=
  unfold MatrixAccessor.sol, MatrixAccessor.dual, cached_property, bind,
    MatrixAccessor.flat_vars, MatrixAccessor.flat_cons, cached_property,
    delattr, ret, raise, call_create_vector, refreshes;
  simpl;
  repeat (case_match; simplify_eq/=);
  try tauto.

Lemma sol_outcome (m : Model) (d : cache) :
  match MatrixAccessor.sol m d with
  | (Ok v, d', _) =>
      d_sol d' = Some v /\ (d_sol d = None \/ d' = d) /\
      d_dual d' = d_dual d /\ d_flat_cons d' = d_flat_cons d
  | (Raise e, d', _) => d_sol d = None /\ refreshes m true false d d'
  end.
Proof. destruct d as [[fv|] fc [s|] du]; run_getter. Qed.

Lemma dual_outcome (m : Model) (d : cache) :
  match MatrixAccessor.dual m d with
  | (Ok v, d', _) =>
      d_dual d' = Some v /\ (d_dual d = None \/ d' = d) /\
      d_sol d' = d_sol d /\ d_flat_vars d' = d_flat_vars d
  | (Raise e, d', _) => d_dual d = None /\ refreshes m false true d d'
  end.
Proof. destruct d as [fv [fc|] s [du|]]; run_getter. Qed.

(** A failed [sol] leaves everything but the flat variable table, and
    replaces a cached flat variable table only when the status check has
    passed and the cached table has no solution column. *)
Lemma sol_failure (m : Model) (d d' : cache) (e : exn) (n : nat) :
  MatrixAccessor.sol m d = (Raise e, d', n) ->
  d_sol d' = d_sol d /\ d_dual d' = d_dual d /\ d_flat_cons d' = d_flat_cons d /\
  (d_flat_vars d' = d_flat_vars d \/
   (d_flat_vars d = None /\ d_flat_vars d' = Some (variables_flat m)) \/
   (status m = "ok" /\
    (exists T, d_flat_vars d = Some T /\ Vars.solution T = None) /\
    d_flat_vars d' = Some (variables_flat m))).
Proof.
  destruct (String.eqb_spec (status m) "ok") as [Hok|Hst].
  - destruct d as [[fv|] fc [s|] du];
      unfold MatrixAccessor.sol, cached_property, bind,
        MatrixAccessor.flat_vars, cached_property, delattr, ret, raise,
        call_create_vector;
      rewrite (status_is_ok m Hok); simpl; intros Hrun;
      repeat (case_match; simplify_eq/=); simplify_eq/=; eauto 10.
  - destruct (d_sol d) as [x|] eqn:Hx; intros Hrun.
    + rewrite (sol_cached m d x Hx) in Hrun. simplify_eq.
    + rewrite (sol_raises_not_optimized m d Hst Hx) in Hrun. simplify_eq. tauto.
Qed.

Lemma dual_failure (m : Model) (d d' : cache) (e : exn) (n : nat) :
  MatrixAccessor.dual m d = (Raise e, d', n) ->
  d_sol d' = d_sol d /\ d_dual d' = d_dual d /\ d_flat_vars d' = d_flat_vars d /\
  (d_flat_cons d' = d_flat_cons d \/
   (d_flat_cons d = None /\ d_flat_cons d' = Some (constraints_flat m)) \/
   (status m = "ok" /\
    (exists T, d_flat_cons d = Some T /\ Cons.dual T = None) /\
    d_flat_cons d' = Some (constraints_flat m))).
Proof.
  destruct (String.eqb_spec (status m) "ok") as [Hok|Hst].
  - destruct d as [fv [fc|] s [du|]];
      unfold MatrixAccessor.dual, cached_property, bind,
        MatrixAccessor.flat_cons, cached_property, delattr, ret, raise,
        call_create_vector;
      rewrite (status_is_ok m Hok); simpl; intros Hrun;
      repeat (case_match; simplify_eq/=); simplify_eq/=; eauto 10.
  - destruct (d_dual d) as [x|] eqn:Hx; intros Hrun.
    + rewrite (dual_cached m d x Hx) in Hrun. simplify_eq.
    + rewrite (dual_raises_not_optimized m d Hst Hx) in Hrun. simplify_eq. tauto.
Qed.

Lemma amap_run {A B} (f : A -> B) (x : acc A) (d : cache) :
  amap f x d
  = (match (x d).1.1 with Ok a => Ok (f a) | Raise e => Raise e end,
     (x d).1.2, (x d).2).
Proof.
  unfold amap, bind, ret. destruct (x d) as [[[a|e] d'] n]; simpl; [|done].
  by rewrite Nat.add_0_r.
Qed.

Lemma getattr_sol_run m d :
  getattr m V_sol d
  = (match (MatrixAccessor.sol m d).1.1 with
     | Ok a => Ok (FloatVector a)
     | Raise e => Raise e
     end, (MatrixAccessor.sol m d).1.2, (MatrixAccessor.sol m d).2).
Proof. apply amap_run. Qed.

Lemma getattr_dual_run m d :
  getattr m V_dual d
  = (match (MatrixAccessor.dual m d).1.1 with
     | Ok a => Ok (FloatVector a)
     | Raise e => Raise e
     end, (MatrixAccessor.dual m d).1.2, (MatrixAccessor.dual m d).2).
Proof. apply amap_run. Qed.

(** No read drops or replaces a cached vector. *)
Lemma getattr_keeps_cached_vectors (m : Model) (v : view) :
  preserves keeps_cached_vectors (getattr m v).
Proof.
  destruct (decide (v = V_sol)) as [->|Hs]; [|destruct (decide (v = V_dual)) as [->|Hd]].
  - intros d. unfold cache_after. rewrite getattr_sol_run. simpl.
    pose proof (sol_outcome m d) as H.
    destruct (MatrixAccessor.sol m d) as [[[a|e] d'] n]; simpl.
    + destruct H as (_ & [Hn | ->] & Hdu & _); [|apply keeps_cached_vectors_refl].
      split; [intros x Hx; congruence | intros x Hx; congruence].
    + destruct H as [_ H]. by apply refreshes_keeps in H.
  - intros d. unfold cache_after. rewrite getattr_dual_run. simpl.
    pose proof (dual_outcome m d) as H.
    destruct (MatrixAccessor.dual m d) as [[[a|e] d'] n]; simpl.
    + destruct H as (_ & [Hn | ->] & Hso & _); [|apply keeps_cached_vectors_refl].
      split; [intros x Hx; congruence | intros x Hx; congruence].
    + destruct H as [_ H]. by apply refreshes_keeps in H.
  - eapply preserves_mono; [|by apply getattr_refreshes].
    intros d d'. apply refreshes_keeps.
Qed.

Lemma reads_keep_cached_vectors (trace : list (Model * view)) :
  forall d, keeps_cached_vectors d (reads trace d).
Proof.
  induction trace as [|[m v] trace IH]; intros d; simpl.
  - apply keeps_cached_vectors_refl.
  - eapply keeps_cached_vectors_trans; [|apply IH].
    apply getattr_keeps_cached_vectors.
Qed.

(** C10.  Once [sol] (or [dual]) has returned a vector, every later read
    returns that same vector from the dictionary and leaves the dictionary
    as it is, whatever the model has become in between (in particular
    whatever its status) and whatever other views were read in between, as
    long as [clean_cached_properties] was not called: the status is not
    checked again. *)
Theorem cached_vector_outlives_status :
  (forall m d v d1 n,
      MatrixAccessor.sol m d = (Ok v, d1, n) ->
      forall (trace : list (Model * view)) (m' : Model),
        MatrixAccessor.sol m' (reads trace d1) = (Ok v, reads trace d1, 0%nat)) /\
  (forall m d v d1 n,
      MatrixAccessor.dual m d = (Ok v, d1, n) ->
      forall (trace : list (Model * view)) (m' : Model),
        MatrixAccessor.dual m' (reads trace d1) = (Ok v, reads trace d1, 0%nat)).
Proof.
  split; intros m d v d1 n Hrun trace m'.
  - pose proof (sol_outcome m d) as H. rewrite Hrun in H. destruct H as (Hc & _).
    apply sol_cached. by apply (reads_keep_cached_vectors trace d1).
  - pose proof (dual_outcome m d) as H. rewrite Hrun in H. destruct H as (Hc & _).
    apply dual_cached. by apply (reads_keep_cached_vectors trace d1).
Qed.

Lemma cached_vector_outlives_status_witness :
  status failed_resolve <> "ok" /\
  MatrixAccessor.sol failed_resolve
    (reads [(unsolved, V_vlabels); (failed_resolve, V_dual)]
       (cache_after (MatrixAccessor.sol solved) empty_cache))
  = (Ok [1; 1; 4; 4]%float,
     reads [(unsolved, V_vlabels); (failed_resolve, V_dual)]
       (cache_after (MatrixAccessor.sol solved) empty_cache), 0%nat) /\
  MatrixAccessor.dual failed_resolve
    (reads [(failed_resolve, V_sol)]
       (cache_after (MatrixAccessor.dual solved) empty_cache))
  = (Ok [0; 2]%float,
     reads [(failed_resolve, V_sol)]
       (cache_after (MatrixAccessor.dual solved) empty_cache), 0%nat).
Proof.
  split; [simpl; discriminate|]. split.
  - apply (proj1 cached_vector_outlives_status solved empty_cache _ _ 1%nat).
    reflexivity.
  - apply (proj2 cached_vector_outlives_status solved empty_cache _ _ 1%nat).
    reflexivity.
Defined.

(** C9, as the code has it.  A failed access to any view leaves the
    cached solution and dual vectors as they were.  A cached flat table is
    left as it was, with one exception: [sol] ([dual]) whose status check
    has passed drops a cached flat variable (constraint) table that lacks
    the solution (dual) column and caches the table of the model's current
    state in its place.  A table that was not cached stays absent or, if
    the view reads it, is now the table of the model's current state.  A
    failure of [sol] or [dual] on the status check changes nothing. *)
Theorem failed_access_frame (m : Model) (v : view) (d d' : cache) (e : exn) (n : nat) :
  getattr m v d = (Raise e, d', n) ->
  d_sol d' = d_sol d /\ d_dual d' = d_dual d /\
  (d_flat_vars d' = d_flat_vars d \/
   (reads_vars v = true /\ d_flat_vars d = None /\
    d_flat_vars d' = Some (variables_flat m)) \/
   (v = V_sol /\ status m = "ok" /\
    (exists T, d_flat_vars d = Some T /\ Vars.solution T = None) /\
    d_flat_vars d' = Some (variables_flat m))) /\
  (d_flat_cons d' = d_flat_cons d \/
   (reads_cons v = true /\ d_flat_cons d = None /\
    d_flat_cons d' = Some (constraints_flat m)) \/
   (v = V_dual /\ status m = "ok" /\
    (exists T, d_flat_cons d = Some T /\ Cons.dual T = None) /\
    d_flat_cons d' = Some (constraints_flat m))) /\
  (status m <> "ok" -> v = V_sol \/ v = V_dual -> d' = d).
Proof.
  intros Hrun.
  destruct (decide (v = V_sol)) as [->|Hs]; [|destruct (decide (v = V_dual)) as [->|Hd]].
  - rewrite getattr_sol_run in Hrun.
    destruct (MatrixAccessor.sol m d) as [[[a|e0] d0] n0] eqn:Hsol; simplify_eq/=.
    destruct (sol_failure m d d' e n Hsol) as (Hso & Hdu & Hc & Hv).
    repeat split; try done.
    + destruct Hv as [Hv | [Hv | Hv]]; [by left | right; left | right; right]; tauto.
    + by left.
    + intros Hst _.
      destruct (d_sol d) as [x|] eqn:Hx.
      * rewrite (sol_cached m d x Hx) in Hsol. simplify_eq.
      * rewrite (sol_raises_not_optimized m d Hst Hx) in Hsol. by simplify_eq.
  - rewrite getattr_dual_run in Hrun.
    destruct (MatrixAccessor.dual m d) as [[[a|e0] d0] n0] eqn:Hdual; simplify_eq/=.
    destruct (dual_failure m d d' e n Hdual) as (Hso & Hdu & Hv & Hc).
    repeat split; try done.
    + by left.
    + destruct Hc as [Hc | [Hc | Hc]]; [by left | right; left | right; right]; tauto.
    + intros Hst _.
      destruct (d_dual d) as [x|] eqn:Hx.
      * rewrite (dual_cached m d x Hx) in Hdual. simplify_eq.
      * rewrite (dual_raises_not_optimized m d Hst Hx) in Hdual. by simplify_eq.
  - pose proof (getattr_fills m v Hs Hd d) as H.
    unfold cache_after in H. rewrite Hrun in H. simpl in H.
    destruct H as (Hso & Hdu & Hv & Hc). repeat split; try done.
    + destruct Hv as [Hv | Hv]; [by left | by right; left].
    + destruct Hc as [Hc | Hc]; [by left | by right; left].
    + intros _ [-> | ->]; done.
Qed.

Lemma failed_access_frame_witness :
  d_sol (set_flat_cons (Some (three_cons None)) empty_cache)
  = d_sol (set_flat_cons (Some (two_cons None)) empty_cache) /\
  d_dual (set_flat_cons (Some (three_cons None)) empty_cache)
  = d_dual (set_flat_cons (Some (two_cons None)) empty_cache) /\
  (d_flat_vars (set_flat_cons (Some (three_cons None)) empty_cache)
   = d_flat_vars (set_flat_cons (Some (two_cons None)) empty_cache) \/
   (reads_vars V_dual = true /\
    d_flat_vars (set_flat_cons (Some (two_cons None)) empty_cache) = None /\
    d_flat_vars (set_flat_cons (Some (three_cons None)) empty_cache)
    = Some (variables_flat solved_no_duals)) \/
   (V_dual = V_sol /\ status solved_no_duals = "ok" /\
    (exists T, d_flat_vars (set_flat_cons (Some (two_cons None)) empty_cache) = Some T /\
               Vars.solution T = None) /\
    d_flat_vars (set_flat_cons (Some (three_cons None)) empty_cache)
    = Some (variables_flat solved_no_duals))) /\
  (d_flat_cons (set_flat_cons (Some (three_cons None)) empty_cache)
   = d_flat_cons (set_flat_cons (Some (two_cons None)) empty_cache) \/
   (reads_cons V_dual = true /\
    d_flat_cons (set_flat_cons (Some (two_cons None)) empty_cache) = None /\
    d_flat_cons (set_flat_cons (Some (three_cons None)) empty_cache)
    = Some (constraints_flat solved_no_duals)) \/
   (V_dual = V_dual /\ status solved_no_duals = "ok" /\
    (exists T, d_flat_cons (set_flat_cons (Some (two_cons None)) empty_cache) = Some T /\
               Cons.dual T = None) /\
    d_flat_cons (set_flat_cons (Some (three_cons None)) empty_cache)
    = Some (constraints_flat solved_no_duals))) /\
  (status solved_no_duals <> "ok" -> V_dual = V_sol \/ V_dual = V_dual ->
   set_flat_cons (Some (three_cons None)) empty_cache
   = set_flat_cons (Some (two_cons None)) empty_cache).
Proof.
  apply (failed_access_frame solved_no_duals V_dual
           (set_flat_cons (Some (two_cons None)) empty_cache)
           (set_flat_cons (Some (three_cons None)) empty_cache)
           (AttributeError "Underlying is optimized but does not have dual values stored.")
           0%nat).
  reflexivity.
Defined.

(** C9 as stated fails: the flat constraint table was cached when the model
    had two constraints; the model then has three and is solved without
    duals; the failed [dual] access replaces the cached table. *)
Lemma failed_access_frame_counterexample :
  cache_after (MatrixAccessor.clabels unsolved) empty_cache
    = set_flat_cons (Some (two_cons None)) empty_cache /\
  MatrixAccessor.dual solved_no_duals (set_flat_cons (Some (two_cons None)) empty_cache)
    = (Raise (AttributeError
                "Underlying is optimized but does not have dual values stored."),
       set_flat_cons (Some (three_cons None)) empty_cache, 0%nat) /\
  d_flat_cons (set_flat_cons (Some (three_cons None)) empty_cache)
    <> d_flat_cons (set_flat_cons (Some (two_cons None)) empty_cache).
Proof.
  split; [reflexivity|]. split; [reflexivity|]. simpl. discriminate.
Qed.

(** ** Dense keys *)

Lemma keys_dense_NoDup (keys : list Z) : keys_dense keys -> NoDup keys.
Proof.
  intros Hd.
  assert (Hsub : seqZ 0 (Z.of_nat (length keys)) ⊆+ keys).
  { apply NoDup_submseteq; [apply NoDup_seqZ|].
    intros x Hx. apply elem_of_seqZ in Hx. apply Hd. lia. }
  apply submseteq_length_Permutation in Hsub.
  - rewrite <- Hsub. apply NoDup_seqZ.
  - rewrite length_seqZ. lia.
Qed.

Lemma keys_dense_bounds (keys : list Z) :
  keys_dense keys ->
  Forall (fun k => 0 <= k < Z.of_nat (length keys)) keys.
Proof. intros Hd. apply Forall_forall. intros k Hk. by apply Hd. Qed.

Lemma keys_dense_max (first : Z) (rest : list Z) :
  keys_dense (first :: rest) ->
  fold_left Z.max rest first + 1 = Z.of_nat (length (first :: rest)).
Proof.
  intros Hd.
  destruct (py_max_spec (first :: rest)) as (m & Hm & Hin & Hub); [done|].
  simpl in Hm. injection Hm as <-.
  apply Hd in Hin.
  assert (Hlast : Z.of_nat (length (first :: rest)) - 1 ∈ first :: rest).
  { apply Hd. simpl length. lia. }
  apply Hub in Hlast. lia.
Qed.

Lemma last_write_lookup {A} (idx : list Z) (vals : list A) (i : Z) (x : A) :
  last_write (combine idx vals) i = Some x ->
  exists j, idx !! j = Some i /\ vals !! j = Some x.
Proof.
  revert vals. induction idx as [|k idx IH]; intros vals H; [done|].
  destruct vals as [|v vals]; [done|]. simpl in H.
  destruct (last_write (combine idx vals) i) as [w|] eqn:Hrest.
  - injection H as ->. destruct (IH vals Hrest) as (j & Hj & Hv).
    by exists (S j).
  - destruct (Z.eqb_spec k i) as [->|]; [|done].
    injection H as ->. by exists 0%nat.
Qed.

Lemma flat_vars_run (m : Model) (d : cache) :
  exists df d1,
    MatrixAccessor.flat_vars m d = (Ok df, d1, 0%nat) /\
    d_flat_vars d1 = Some df.
Proof.
  destruct d as [[fv|] fc s du]; eexists _, _; split; reflexivity.
Qed.

Lemma flat_vars_again (m m' : Model) (d d1 : cache) (df : Vars.t) :
  MatrixAccessor.flat_vars m d = (Ok df, d1, 0%nat) ->
  MatrixAccessor.flat_vars m' d1 = (Ok df, d1, 0%nat).
Proof.
  destruct d as [[fv|] fc s du]; unfold MatrixAccessor.flat_vars, cached_property, ret;
    simpl; intros H; by simplify_eq/=.
Qed.

(** C8.  For a flat variable table that satisfies its invariant, scattering
    [(key, labels)] with fill [-1] and looking a label up again recovers the
    key: for every row whose label is not the sentinel, the label stands in
    the vector at the row's key and at no other position. *)
Theorem vlabels_roundtrip (m : Model) (d d1 : cache) (df : Vars.t)
    (r : nat) (k l : Z) :
  MatrixAccessor.flat_vars m d = (Ok df, d1, 0%nat) ->
  flat_vars_ok df ->
  Vars.key df !! r = Some k ->
  Vars.labels df !! r = Some l ->
  l <> -1 ->
  exists vector,
    MatrixAccessor.vlabels m d = (Ok vector, d1, 1%nat) /\
    length vector = length (Vars.key df) /\
    vector !! Z.to_nat k = Some l /\
    forall p, vector !! p = Some l -> p = Z.to_nat k.
Proof.
  intros Hread [Hrows Hdense Hlabels] Hk Hl Hsent.
  pose proof (keys_dense_NoDup _ Hdense) as Hnodup.
  pose proof (keys_dense_bounds _ Hdense) as Hbounds.
  destruct (create_vector_spec (Vars.key df) (Vars.labels df) (-1) None
              (Z.of_nat (length (Vars.key df))) Hrows)
    as (vector & Hrun & Hlen & Hget);
    [| done | lia | apply np_asarray_int64, Vars.labels_int64 |].
  { destruct (Vars.key df) as [|first rest] eqn:Hkeys; [done|].
    exists (fold_left Z.max rest first). split; [done|].
    symmetry. by apply keys_dense_max. }
  rewrite Nat2Z.id in Hlen, Hget.
  assert (Hkr : 0 <= k < Z.of_nat (length (Vars.key df))).
  { apply Hdense. apply list_elem_of_lookup. eauto. }
  exists vector. split; [|split; [done|split]].
  - unfold MatrixAccessor.vlabels, bind, call_create_vector.
    by rewrite Hread, Hrun.
  - rewrite Hget by lia. rewrite Z2Nat.id by lia.
    rewrite (last_write_last_occurrence _ _ r k Hrows Hk); [by rewrite Hl|].
    intros j' Hlt Hj'. pose proof (NoDup_lookup _ _ _ _ Hnodup Hk Hj'). lia.
  - intros p Hp.
    assert (Hlt : (p < length (Vars.key df))%nat).
    { apply lookup_lt_Some in Hp. lia. }
    rewrite Hget in Hp by done.
    destruct (last_write _ _) as [x|] eqn:Hlw; simpl in Hp; [|congruence].
    injection Hp as ->.
    apply last_write_lookup in Hlw as (j & Hj & Hv).
    pose proof (Hlabels _ _ _ Hv Hl Hsent) as ->.
    rewrite Hk in Hj. injection Hj as ->. by rewrite Nat2Z.id.
Qed.

Lemma vlabels_roundtrip_witness :
  exists vector,
    MatrixAccessor.vlabels (sample "initialized" masked_vars no_cons xy_objective)
      empty_cache
    = (Ok vector, set_flat_vars (Some masked_vars) empty_cache, 1%nat) /\
    length vector = length (Vars.key masked_vars) /\
    vector !! Z.to_nat 2 = Some 7 /\
    forall p, vector !! p = Some 7 -> p = Z.to_nat 2.
Proof.
  apply (vlabels_roundtrip (sample "initialized" masked_vars no_cons xy_objective)
           empty_cache (set_flat_vars (Some masked_vars) empty_cache) masked_vars
           2%nat 2 7).
  - reflexivity.
  - split.
    + reflexivity.
    + intros k. simpl. rewrite !elem_of_cons, elem_of_nil. lia.
    + intros i j l Hi Hj Hl. simpl in Hi, Hj.
      destruct i as [|[|[|[|i]]]], j as [|[|[|[|j]]]]; by simplify_eq/=.
  - reflexivity.
  - reflexivity.
  - lia.
Defined.

(** ** Matrices *)

Lemma map_fmap {A B} (f : A -> B) (l : list A) : map f l = f <$> l.
Proof. reflexivity. Qed.

Lemma take_rows_of_in_range (rws : list (list float)) (labels : list Z) :
  Forall (fun l => 0 <= l < Z.of_nat (length rws)) labels ->
  take_rows_of rws labels = Ok ((fun l => nth (Z.to_nat l) rws []) <$> labels).
Proof.
  induction 1 as [|l labels Hl _ IH]; [done|].
  simpl. rewrite (np_index_in_range _ _ Hl). simpl. by rewrite IH.
Qed.

Lemma col_positions_in_range (n : nat) (labels : list Z) :
  Forall (fun l => 0 <= l < Z.of_nat n) labels ->
  col_positions n labels = Ok (Z.to_nat <$> labels).
Proof.
  induction 1 as [|l labels Hl _ IH]; [done|].
  simpl. rewrite (np_index_in_range _ _ Hl). simpl. by rewrite IH.
Qed.

Lemma vlabels_inv (m : Model) (d d1 : cache) (labels : list Z) (n : nat) :
  MatrixAccessor.vlabels m d = (Ok labels, d1, n) ->
  n = 1%nat /\ forall m', MatrixAccessor.vlabels m' d1 = (Ok labels, d1, 1%nat).
Proof.
  intros Hrun. destruct (flat_vars_run m d) as (df & d' & Hread & Hcached).
  unfold MatrixAccessor.vlabels, bind, call_create_vector in Hrun |- *.
  rewrite Hread in Hrun.
  destruct (create_vector _ _ _ _) as [v|e] eqn:Hcv; simplify_eq/=.
  split; [done|]. intros m'.
  by rewrite (flat_vars_again m m' d d1 df Hread), Hcv.
Qed.

(** C5.  With a purely linear objective [Q] returns [None] (no matrix, and
    nothing is read or cached).  With a quadratic objective it returns the
    matrix of the objective expression reindexed by [vlabels] on both
    axes: entry [(i, j)] of the result is entry
    [(vlabels[i], vlabels[j])] of the full matrix. *)
Theorem Q_absent_or_reindexed :
  (forall m d, is_linear m = true -> MatrixAccessor.Q m d = (Ok None, d, 0%nat)) /\
  (forall m d flat M labels d1,
      objective_expression m = QuadraticExpression flat M ->
      MatrixAccessor.vlabels m d = (Ok labels, d1, 1%nat) ->
      Forall (fun l => 0 <= l < Z.of_nat (length (rows M))) labels ->
      Forall (fun l => 0 <= l < Z.of_nat (ncols M)) labels ->
      exists M',
        MatrixAccessor.Q m d = (Ok (Some M'), d1, 2%nat) /\
        length (rows M') = length labels /\
        ncols M' = length labels /\
        forall i j li lj,
          labels !! i = Some li -> labels !! j = Some lj ->
          entry M' i j = entry M (Z.to_nat li) (Z.to_nat lj)).
Proof.
  split.
  - intros m d Hlin. unfold MatrixAccessor.Q. by rewrite Hlin.
  - intros m d flat M labels d1 Hobj Hrun Hrows Hcols.
    destruct (vlabels_inv _ _ _ _ _ Hrun) as [_ Hagain].
    eexists. split; [|split; [|split]].
    + unfold MatrixAccessor.Q, is_linear. rewrite Hobj. simpl.
      unfold bind at 1. simpl. unfold bind at 1. rewrite Hrun.
      unfold bind at 1, lift, take_rows.
      rewrite (take_rows_of_in_range _ _ Hrows). simpl.
      unfold bind at 1. rewrite (Hagain m).
      unfold bind, take_cols. simpl.
      rewrite (col_positions_in_range _ _ Hcols). simpl. reflexivity.
    + simpl. by rewrite !map_fmap, !length_fmap.
    + reflexivity.
    + intros i j li lj Hi Hj. unfold entry. simpl.
      rewrite !map_fmap.
      rewrite (nth_lookup _ i), list_lookup_fmap, list_lookup_fmap, Hi. simpl.
      rewrite (nth_lookup _ j), list_lookup_fmap, list_lookup_fmap, Hj. simpl.
      reflexivity.
Qed.

Lemma Q_absent_or_reindexed_witness :
  MatrixAccessor.Q linear_model empty_cache = (Ok None, empty_cache, 0%nat) /\
  exists M',
    MatrixAccessor.Q unsolved empty_cache
    = (Ok (Some M'), set_flat_vars (Some (xy_vars None)) empty_cache, 2%nat) /\
    length (rows M') = length [0; 1; 2; 3] /\
    ncols M' = length [0; 1; 2; 3] /\
    forall i j li lj,
      [0; 1; 2; 3] !! i = Some li -> [0; 1; 2; 3] !! j = Some lj ->
      entry M' i j
      = entry {| ncols := 4;
                 rows := [[0; 0; 1; 0]; [0; 0; 0; 1];
                          [1; 0; 0; 0]; [0; 1; 0; 0]]%float |}
          (Z.to_nat li) (Z.to_nat lj).
Proof.
  split.
  - apply (proj1 Q_absent_or_reindexed linear_model empty_cache). reflexivity.
  - apply (proj2 Q_absent_or_reindexed unsolved empty_cache
             [(0, 2, 1%float); (1, 3, 1%float); (0, -1, 2%float); (-1, 1, 2%float)]).
    + reflexivity.
    + reflexivity.
    + repeat constructor; simpl; lia.
    + repeat constructor; simpl; lia.
Defined.

(** ** The objective coefficients *)

Lemma series_get_row (labels keys : list Z) (r : nat) (l k : Z) :
  NoDup labels ->
  labels !! r = Some l -> keys !! r = Some k ->
  series_get labels keys l = Some k.
Proof.
  intros Hnd. revert keys r.
  induction Hnd as [|i labels Hnotin _ IH]; intros keys r Hl Hk; [done|].
  destruct keys as [|v keys]; [done|].
  destruct r as [|r]; simpl in *.
  - simplify_eq. by rewrite Z.eqb_refl.
  - destruct (Z.eqb_spec i l) as [->|_].
    + exfalso. apply Hnotin. by eapply list_elem_of_lookup_2.
    + by eapply IH.
Qed.

Lemma as_ints_found (f : Z -> option Z) (xs : list Z) :
  (forall x, x ∈ xs -> exists k, f x = Some k) ->
  as_ints (f <$> xs) = Some ((fun x => default 0 (f x)) <$> xs).
Proof.
  induction xs as [|x xs IH]; intros Hall; [done|].
  destruct (Hall x) as [k Hk]; [left|].
  rewrite !fmap_cons. simpl. rewrite Hk, IH; [done|].
  intros y Hy. apply Hall. by right.
Qed.

Lemma last_write_app {A} (w1 w2 : list (Z * A)) (i : Z) :
  last_write (w1 ++ w2) i
  = match last_write w2 i with
    | Some x => Some x
    | None => last_write w1 i
    end.
Proof.
  induction w1 as [|[j v] w1 IH]; simpl.
  - by destruct (last_write w2 i).
  - rewrite IH. by destruct (last_write w2 i).
Qed.

Lemma last_write_none {A} (writes : list (Z * A)) (i : Z) :
  (forall w, w ∈ writes -> w.1 <> i) -> last_write writes i = None.
Proof.
  induction writes as [|[j v] writes IH]; intros Hall; [done|].
  simpl. rewrite IH.
  - destruct (Z.eqb_spec j i) as [->|]; [|done].
    exfalso. by apply (Hall (i, v)); [left|].
  - intros w Hw. apply Hall. by right.
Qed.

Lemma combine_fmap {A B C} (f : A -> B) (g : A -> C) (l : list A) :
  combine (f <$> l) (g <$> l) = (fun x => (f x, g x)) <$> l.
Proof. induction l as [|x l IH]; [done|]. rewrite !fmap_cons. simpl. by rewrite IH. Qed.

(** The filter and the selection of lines 146-147, in the words of the
    statements. *)
Lemma objective_terms_quadratic (m : Model) flat M :
  objective_expression m = QuadraticExpression flat M ->
  MatrixAccessor.objective_terms m
  = (fun t => (real_label t, t.2)) <$> filter linear_term flat.
Proof.
  intros Hobj. unfold MatrixAccessor.objective_terms. rewrite Hobj, map_fmap.
  clear Hobj. induction flat as [|t flat IH]; [done|].
  assert (Hiff : Is_true ((t.1.1 =? -1) || (t.1.2 =? -1)) <-> linear_term t).
  { unfold linear_term. rewrite orb_True, !Is_true_true, !Z.eqb_eq. done. }
  destruct (decide (linear_term t)) as [Hlin|Hlin].
  - rewrite (filter_cons_True _ _ _ Hlin).
    rewrite filter_cons_True by by apply Hiff.
    rewrite !fmap_cons, IH. f_equal. f_equal.
    unfold real_label. destruct (decide (t.1.1 = -1)) as [->|Hne]; [done|].
    apply Z.eqb_neq in Hne. by rewrite Hne.
  - rewrite (filter_cons_False _ _ _ Hlin).
    rewrite filter_cons_False by by rewrite Hiff.
    done.
Qed.

(** The key that the flat variable table gives to a label. *)
Lemma label_key (df : Vars.t) (l : Z) :
  length (Vars.labels df) = length (Vars.key df) ->
  NoDup (Vars.labels df) ->
  l ∈ Vars.labels df ->
  exists r k,
    Vars.labels df !! r = Some l /\ Vars.key df !! r = Some k /\
    series_get (Vars.labels df) (Vars.key df) l = Some k.
Proof.
  intros Hrows Hnd Hin.
  apply list_elem_of_lookup in Hin as [r Hr].
  destruct (lookup_lt_is_Some_2 (Vars.key df) r) as [k Hk].
  { apply lookup_lt_Some in Hr. lia. }
  exists r, k. split; [done|]. split; [done|]. by eapply series_get_row.
Qed.

(** The call of the builder that [c] makes for a quadratic objective. *)
Lemma c_quadratic_run (m : Model) (d d1 : cache) (df : Vars.t)
    (flat : list (Z * Z * float)) (M : matrix) :
  objective_expression m = QuadraticExpression flat M ->
  MatrixAccessor.flat_vars m d = (Ok df, d1, 0%nat) ->
  length (Vars.labels df) = length (Vars.key df) ->
  keys_dense (Vars.key df) ->
  Vars.key df <> [] ->
  NoDup (Vars.labels df) ->
  (forall t, t ∈ flat -> linear_term t -> real_label t ∈ Vars.labels df) ->
  exists vector,
    MatrixAccessor.c m d = (Ok vector, d1, 1%nat) /\
    length vector = length (Vars.key df) /\
    forall p : nat,
      (p < length vector)%nat ->
      vector !! p
      = Some (default 0%float
                (last_write
                   ((fun t =>
                       (default 0
                          (series_get (Vars.labels df) (Vars.key df) (real_label t)),
                        t.2)) <$> filter linear_term flat)
                   (Z.of_nat p))).
Proof.
  intros Hobj Hread Hrows Hdense Hne Hnd Hfound.
  set (key_of := fun l => default 0 (series_get (Vars.labels df) (Vars.key df) l)).
  set (L := filter linear_term flat).
  assert (HL : forall t, t ∈ L ->
            exists k, series_get (Vars.labels df) (Vars.key df) (real_label t) = Some k /\
                      k ∈ Vars.key df).
  { intros t Ht. apply list_elem_of_filter in Ht as [Hlin Hin].
    destruct (label_key df (real_label t) Hrows Hnd (Hfound t Hin Hlin))
      as (r & k & _ & Hk & Hget).
    exists k. split; [done|]. by eapply list_elem_of_lookup_2. }
  destruct (create_vector_spec ((key_of ∘ real_label) <$> L) (snd <$> L) 0%float
              (Some (Int (Z.of_nat (length (Vars.key df)))))
              (Z.of_nat (length (Vars.key df))))
    as (vector & Hrun & Hlen & Hget);
    [by rewrite !length_fmap | done | | lia | apply np_asarray_float |].
  { apply Forall_forall. intros i Hi.
    apply list_elem_of_fmap in Hi as (t & -> & Ht).
    destruct (HL t Ht) as (k & Hk & Hin). unfold key_of, compose. rewrite Hk.
    by apply Hdense. }
  rewrite Nat2Z.id in Hlen, Hget.
  exists vector. split; [|split; [done|]].
  - unfold MatrixAccessor.c, bind.
    rewrite Hread, (objective_terms_quadratic m flat M Hobj). fold L.
    unfold series_map, lift. rewrite bool_decide_true by done.
    rewrite (flat_vars_again m m d d1 df Hread).
    rewrite !map_fmap, <- !list_fmap_compose.
    rewrite (list_fmap_compose real_label (series_get (Vars.labels df) (Vars.key df))).
    rewrite as_ints_found.
    2:{ intros x Hx. apply list_elem_of_fmap in Hx as (t & -> & Ht).
        destruct (HL t Ht) as (k & Hk & _). eauto. }
    rewrite <- list_fmap_compose.
    assert (Hshape : number_add (series_max (Vars.key df)) 1
                     = Int (Z.of_nat (length (Vars.key df)))).
    { destruct (Vars.key df) as [|first rest] eqn:Hkeys; [done|].
      simpl number_add. f_equal. by apply keys_dense_max. }
    rewrite Hshape. unfold call_create_vector.
    change (snd ∘ (fun t : Z * Z * float => (real_label t, t.2))) with (@snd (Z * Z) float).
    change ((fun x => default 0 (series_get (Vars.labels df) (Vars.key df) x))
              ∘ real_label) with (key_of ∘ real_label).
    by rewrite Hrun.
  - intros p Hp. rewrite Hget by lia. rewrite combine_fmap. done.
Qed.

(** C4, as the code has it.  For a quadratic objective, over a flat
    variable table with dense keys and distinct labels that holds the
    variable of every linear term: [c] succeeds with one call of the
    builder; the vector has one entry per row of the flat variable table,
    that is, per non-missing variable, whether the objective mentions it
    or not (a masked entry has no row and no entry); a linear term (one
    slot holds the sentinel) puts its coefficient at the key that the
    table gives to the label in its other slot, the last such term for a
    key winning; every other entry, purely quadratic terms included, is
    [0.0]. *)
Theorem c_quadratic_objective (m : Model) (d d1 : cache) (df : Vars.t)
    (flat : list (Z * Z * float)) (M : matrix) :
  objective_expression m = QuadraticExpression flat M ->
  MatrixAccessor.flat_vars m d = (Ok df, d1, 0%nat) ->
  length (Vars.labels df) = length (Vars.key df) ->
  keys_dense (Vars.key df) ->
  Vars.key df <> [] ->
  NoDup (Vars.labels df) ->
  (forall t, t ∈ flat -> linear_term t -> real_label t ∈ Vars.labels df) ->
  exists vector,
    MatrixAccessor.c m d = (Ok vector, d1, 1%nat) /\
    length vector = length (Vars.key df) /\
    (forall (j : nat) (t : Z * Z * float) (r : nat) (k : Z),
        flat !! j = Some t -> linear_term t ->
        Vars.labels df !! r = Some (real_label t) -> Vars.key df !! r = Some k ->
        (forall (j' : nat) (t' : Z * Z * float) (r' : nat),
            (j < j')%nat -> flat !! j' = Some t' -> linear_term t' ->
            Vars.labels df !! r' = Some (real_label t') ->
            Vars.key df !! r' <> Some k) ->
        vector !! Z.to_nat k = Some t.2) /\
    (forall p : nat,
        (p < length vector)%nat ->
        (forall (t : Z * Z * float) (r : nat),
            t ∈ flat -> linear_term t ->
            Vars.labels df !! r = Some (real_label t) ->
            Vars.key df !! r <> Some (Z.of_nat p)) ->
        vector !! p = Some 0%float).
Proof.
  intros Hobj Hread Hrows Hdense Hne Hnd Hfound.
  destruct (c_quadratic_run m d d1 df flat M Hobj Hread Hrows Hdense Hne Hnd Hfound)
    as (vector & Hrun & Hlen & Hget).
  exists vector. split; [done|]. split; [done|].
  set (w := fun t : Z * Z * float =>
              (default 0 (series_get (Vars.labels df) (Vars.key df) (real_label t)),
               t.2)) in Hget.
  assert (Hw : forall t, t ∈ flat -> linear_term t ->
             exists r k, Vars.labels df !! r = Some (real_label t) /\
                         Vars.key df !! r = Some k /\ (w t).1 = k).
  { intros t Hin Hlin.
    destruct (label_key df (real_label t) Hrows Hnd (Hfound t Hin Hlin))
      as (r & k & Hr & Hk & Hsg).
    exists r, k. unfold w. simpl. by rewrite Hsg. }
  split.
  - intros j t r k Hj Hlin Hr Hk Hlater.
    assert (Hkr : 0 <= k < Z.of_nat (length (Vars.key df))).
    { apply Hdense. by eapply list_elem_of_lookup_2. }
    rewrite Hget by lia. rewrite Z2Nat.id by lia.
    rewrite <- (take_drop_middle flat j t Hj).
    rewrite filter_app, filter_cons_True by done.
    rewrite fmap_app, fmap_cons, last_write_app. simpl.
    rewrite last_write_none.
    + unfold w at 1. simpl. rewrite (series_get_row _ _ r _ k Hnd Hr Hk).
      by rewrite Z.eqb_refl.
    + intros x Hx. apply list_elem_of_fmap in Hx as (t' & -> & Ht').
      apply list_elem_of_filter in Ht' as [Hlin' Hin'].
      apply list_elem_of_lookup in Hin' as [q Hq]. rewrite lookup_drop in Hq.
      destruct (Hw t') as (r' & k' & Hr' & Hk' & ->); [|done|].
      { by eapply list_elem_of_lookup_2. }
      intros ->. eapply (Hlater (S j + q)%nat t' r'); [lia|done..].
  - intros p Hp Hnone. rewrite Hget by done.
    rewrite last_write_none; [done|].
    intros x Hx. apply list_elem_of_fmap in Hx as (t & -> & Ht).
    apply list_elem_of_filter in Ht as [Hlin Hin].
    destruct (Hw t Hin Hlin) as (r & k & Hr & Hk & ->).
    intros ->. by eapply Hnone.
Qed.

Lemma c_quadratic_objective_witness :
  exists vector,
    MatrixAccessor.c one_masked empty_cache
    = (Ok vector, set_flat_vars (Some one_masked_vars) empty_cache, 1%nat) /\
    length vector = length (Vars.key one_masked_vars) /\
    (forall (j : nat) (t : Z * Z * float) (r : nat) (k : Z),
        [(0, 2, 1%float); (0, -1, 2%float); (-1, 4, 3%float)] !! j = Some t ->
        linear_term t ->
        Vars.labels one_masked_vars !! r = Some (real_label t) ->
        Vars.key one_masked_vars !! r = Some k ->
        (forall (j' : nat) (t' : Z * Z * float) (r' : nat),
            (j < j')%nat ->
            [(0, 2, 1%float); (0, -1, 2%float); (-1, 4, 3%float)] !! j' = Some t' ->
            linear_term t' ->
            Vars.labels one_masked_vars !! r' = Some (real_label t') ->
            Vars.key one_masked_vars !! r' <> Some k) ->
        vector !! Z.to_nat k = Some t.2) /\
    (forall p : nat,
        (p < length vector)%nat ->
        (forall (t : Z * Z * float) (r : nat),
            t ∈ [(0, 2, 1%float); (0, -1, 2%float); (-1, 4, 3%float)] ->
            linear_term t ->
            Vars.labels one_masked_vars !! r = Some (real_label t) ->
            Vars.key one_masked_vars !! r <> Some (Z.of_nat p)) ->
        vector !! p = Some 0%float).
Proof.
  apply (c_quadratic_objective one_masked empty_cache
           (set_flat_vars (Some one_masked_vars) empty_cache) one_masked_vars
           [(0, 2, 1%float); (0, -1, 2%float); (-1, 4, 3%float)]
           {| ncols := 5;
              rows := [[0; 0; 1; 0; 0]; [0; 0; 0; 0; 0]; [1; 0; 0; 0; 0];
                       [0; 0; 0; 0; 0]; [0; 0; 0; 0; 0]]%float |}).
  - reflexivity.
  - reflexivity.
  - reflexivity.
  - intros k. simpl. rewrite !elem_of_cons, elem_of_nil. lia.
  - discriminate.
  - exact (bool_decide_unpack (NoDup (Vars.labels one_masked_vars)) I).
  - intros t Ht Hlin. simpl.
    rewrite !elem_of_cons, elem_of_nil in Ht.
    destruct Ht as [-> | [-> | [-> | []]]];
      unfold linear_term in Hlin; simpl in Hlin;
      rewrite !elem_of_cons; vm_compute; (lia || tauto).
Defined.

(** The claim as the specification words it, with a vector as long as the
    full count of declared variables, fails on a model with a masked
    entry: five entries are declared, the flat variable table has the four
    that are not masked, and [c] has four entries. *)
Lemma c_quadratic_objective_counterexample :
  xCounter one_masked = 5%nat /\
  length (Vars.key (variables_flat one_masked)) = 4%nat /\
  (MatrixAccessor.c one_masked empty_cache).1.1 = Ok [2; 0; 0; 3]%float /\
  length [2; 0; 0; 3]%float <> xCounter one_masked.
Proof. repeat split. simpl. lia. Qed.

(** A flat variable table that kept two masked entries as rows with the
    sentinel label would make [c] fail: the labels are the index of the
    mapper, which pandas wants unique. *)
Example c_two_sentinel_rows :
  (MatrixAccessor.c (sample "initialized" masked_vars no_cons xy_objective)
     empty_cache).1.1
  = Raise (InvalidIndexError
             "Reindexing only valid with uniquely valued Index objects").
Proof. reflexivity. Qed.

(** ** Illustrations *)

(** The sample objective [x * y + 2 x]: the coefficients of the two linear
    terms stand at the keys of the two entries of [x], the rest is zero. *)
Example c_sample :
  (MatrixAccessor.c unsolved empty_cache).1.1 = Ok [2; 2; 0; 0]%float.
Proof. reflexivity. Qed.

(** Adding a variable: without [clean_cached_properties] the labels are
    those of the cached table; after it they are those of the model. *)
Example vlabels_after_new_variable :
  let before := sample "initialized" masked_vars no_cons xy_objective in
  let after := sample "initialized" (xy_vars None) no_cons xy_objective in
  let d := cache_after (MatrixAccessor.vlabels before) empty_cache in
  (MatrixAccessor.vlabels before empty_cache).1.1 = Ok [5; -1; 7; -1] /\
  (MatrixAccessor.vlabels after d).1.1 = Ok [5; -1; 7; -1] /\
  (MatrixAccessor.vlabels after
     (cache_after MatrixAccessor.clean_cached_properties d)).1.1 = Ok [0; 1; 2; 3].
Proof. repeat split. Qed.

(** Outside the contract of the builder: numpy reads a negative index
    from the end of the array, and refuses an index that is out of range. *)
Example create_vector_negative_index :
  create_vector [2; -1] ["a"; "b"] "" None = Ok [""; ""; "b"] /\
  create_vector [-1] ["a"] "" None = Raise (IndexError "index is out of bounds") /\
  create_vector [3] ["a"] "" (Some (Int 2)) = Raise (IndexError "index is out of bounds").
Proof. repeat split. Qed.

(** With an explicit shape that covers the indices the vector has exactly
    that length. *)
Lemma create_vector_explicit_shape {A} {dtype : Dtype A}
    (idx : list Z) (vals vals' : list A) (fill : A) (n : Z) :
  length vals = length idx ->
  Forall (fun i => 0 <= i < n) idx ->
  0 <= n ->
  np_asarray fill vals = Ok vals' ->
  exists vector,
    create_vector idx vals fill (Some (Int n)) = Ok vector /\
    Z.of_nat (length vector) = n.
Proof.
  intros Hlen Hidx Hn Hcast.
  destruct (create_vector_cast_spec idx vals vals' fill (Some (Int n)) n
              Hlen eq_refl Hidx Hn Hcast)
    as (vector & Hrun & Hlenv & _).
  exists vector. split; [done | lia].
Qed.

(** * Further properties *)

(** ** The builder: explicit shape, bounds, negative indices *)

Lemma np_index_negative (n : nat) (i : Z) :
  - Z.of_nat n <= i < 0 -> np_index n i = Ok (Z.to_nat (i + Z.of_nat n)).
Proof.
  intros [Hlo Hhi]. unfold np_index.
  destruct (Z.leb_spec 0 i); [lia|]. simpl.
  destruct (Z.leb_spec (- Z.of_nat n) i); [|lia].
  destruct (Z.ltb_spec i 0); [done | lia].
Qed.


Lemma np_index_wrap (n : nat) (i : Z) :
  - Z.of_nat n <= i < Z.of_nat n ->
  np_index n i = Ok (Z.to_nat (wrap_index (Z.of_nat n) i)) /\
  0 <= wrap_index (Z.of_nat n) i < Z.of_nat n.
Proof.
  intros Hin. unfold wrap_index. destruct (Z.ltb_spec i 0).
  - split; [apply np_index_negative | ]; lia.
  - split; [apply np_index_in_range | ]; lia.
Qed.

Lemma np_full_ok {A} (n : Z) (fill : A) :
  0 <= n -> np_full (Int n) fill = Ok (replicate (Z.to_nat n) fill).
Proof. intros Hn. unfold np_full. destruct (Z.ltb_spec n 0); [lia | done]. Qed.

Lemma create_vector_given_shape {A} {dtype : Dtype A}
    (idx : list Z) (vals : list A) (fill : A) (n : Z) :
  0 <= n ->
  create_vector idx vals fill (Some (Int n))
  = np_setitem fill (replicate (Z.to_nat n) fill) idx vals.
Proof.
  intros Hn. unfold create_vector. unfold rbind at 1.
  by rewrite (np_full_ok n fill Hn).
Qed.







Lemma np_scatter_wrap {A} (writes : list (Z * A)) :
  forall vector : list A,
    Forall (fun w => - Z.of_nat (length vector) <= w.1 < Z.of_nat (length vector))
      writes ->
    np_scatter vector writes
    = np_scatter vector
        ((fun w => (wrap_index (Z.of_nat (length vector)) w.1, w.2)) <$> writes).
Proof.
  induction writes as [|[i v] writes IH]; intros vector Hall; [done|].
  apply Forall_cons in Hall as [Hi Hall]. simpl in Hi.
  rewrite fmap_cons. simpl.
  destruct (np_index_wrap _ _ Hi) as [-> Hw].
  rewrite (np_index_in_range _ _ Hw). simpl.
  rewrite IH by by rewrite length_insert.
  by rewrite length_insert.
Qed.

(** X3.  Negative indices count from the end: when every index lies in
    [-n, n), [create_vector] returns what it returns for the indices with
    [n] added to the negative ones. *)
Theorem create_vector_negative_wraps {A : Type} {dtype : Dtype A}
    (idx : list Z) (vals : list A) (fill_value : A) (n : Z) :
  Forall (fun i => - n <= i < n) idx ->
  create_vector idx vals fill_value (Some (Int n))
  = create_vector (wrap_index n <$> idx) vals fill_value (Some (Int n)).
Proof.
  intros Hall.
  destruct (Z.ltb_spec n 0) as [Hneg|Hn].
  { unfold create_vector, rbind, np_full. by rewrite (proj2 (Z.ltb_lt n 0) Hneg). }
  rewrite !(create_vector_given_shape _ _ _ _ Hn).
  unfold np_setitem. rewrite length_fmap.
  destruct (np_asarray fill_value vals) as [vals0|e]; [|done]. unfold rbind at 1 3.
  destruct (np_broadcast (length idx) vals0) as [vals'|e]; [|done]. unfold rbind.
  rewrite np_scatter_wrap.
  - rewrite length_replicate, Z2Nat.id by done. f_equal.
    clear Hall. revert vals'. induction idx as [|i idx IH]; intros vals'; [done|].
    destruct vals' as [|v vals']; [done|]. rewrite !fmap_cons. simpl.
    by rewrite IH.
  - rewrite length_replicate, Z2Nat.id by done.
    clear -Hall. revert vals'. induction Hall as [|i idx Hi _ IH]; intros vals'; [done|].
    destruct vals' as [|v vals']; [done|]. by constructor.
Qed.

Lemma create_vector_negative_wraps_witness :
  create_vector [0; -1; -3] ["a"; "b"; "c"] "" (Some (Int 4))
  = create_vector (wrap_index 4 <$> [0; -1; -3]) ["a"; "b"; "c"] "" (Some (Int 4)).
Proof.
  apply (create_vector_negative_wraps [0; -1; -3] ["a"; "b"; "c"] "" 4).
  repeat constructor; lia.
Defined.

(** ** Vectors over a table with dense keys *)

Lemma flat_cons_run (m : Model) (d : cache) :
  exists df d1,
    MatrixAccessor.flat_cons m d = (Ok df, d1, 0%nat) /\
    d_flat_cons d1 = Some df.
Proof.
  destruct d as [fv [fc|] s du]; eexists _, _; split; reflexivity.
Qed.

Lemma flat_cons_again (m m' : Model) (d d1 : cache) (df : Cons.t) :
  MatrixAccessor.flat_cons m d = (Ok df, d1, 0%nat) ->
  MatrixAccessor.flat_cons m' d1 = (Ok df, d1, 0%nat).
Proof.
  destruct d as [fv [fc|] s du]; unfold MatrixAccessor.flat_cons, cached_property, ret;
    simpl; intros H; by simplify_eq/=.
Qed.

(** Scattering a column by dense keys: every row lands at its key and
    every position is the key of a row. *)
Lemma scatter_dense_cast {A} {dtype : Dtype A} (keys : list Z) (col col' : list A)
    (fill : A) :
  keys_dense keys -> keys <> [] -> length col = length keys ->
  np_asarray fill col = Ok col' ->
  exists vector,
    create_vector keys col fill None = Ok vector /\
    length vector = length keys /\
    (forall r k, keys !! r = Some k -> vector !! Z.to_nat k = col' !! r) /\
    (forall p, (p < length vector)%nat ->
               exists r, keys !! r = Some (Z.of_nat p) /\ vector !! p = col' !! r).
Proof.
  intros Hdense Hne Hrows Hcast.
  assert (Hrows' : length col' = length keys).
  { by rewrite (np_asarray_length _ _ _ Hcast). }
  pose proof (keys_dense_NoDup _ Hdense) as Hnodup.
  destruct (create_vector_cast_spec keys col col' fill None
              (Z.of_nat (length keys)) Hrows)
    as (vector & Hrun & Hlen & Hget);
    [| by apply keys_dense_bounds | lia | done |].
  { destruct keys as [|first rest] eqn:Hkeys; [done|].
    exists (fold_left Z.max rest first). split; [done|].
    symmetry. by apply keys_dense_max. }
  rewrite Nat2Z.id in Hlen, Hget.
  assert (Hat : forall r k, keys !! r = Some k -> vector !! Z.to_nat k = col' !! r).
  { intros r k Hk.
    assert (Hkr : 0 <= k < Z.of_nat (length keys)).
    { apply Hdense. by eapply list_elem_of_lookup_2. }
    rewrite Hget by lia. rewrite Z2Nat.id by lia.
    rewrite (last_write_last_occurrence _ _ r k Hrows' Hk).
    - destruct (col' !! r) eqn:Hc; [done|].
      apply lookup_ge_None in Hc. apply lookup_lt_Some in Hk. lia.
    - intros j' Hlt Hj'. pose proof (NoDup_lookup _ _ _ _ Hnodup Hk Hj'). lia. }
  exists vector. split; [done|]. split; [done|]. split; [done|].
  intros p Hp.
  assert (Hin : Z.of_nat p ∈ keys) by (apply Hdense; lia).
  apply list_elem_of_lookup in Hin as [r Hr]. exists r. split; [done|].
  rewrite <- (Hat r _ Hr). by rewrite Nat2Z.id.
Qed.

Lemma scatter_dense {A} {dtype : Dtype A} (keys : list Z) (col : list A) (fill : A) :
  keys_dense keys -> keys <> [] -> length col = length keys ->
  np_asarray fill col = Ok col ->
  exists vector,
    create_vector keys col fill None = Ok vector /\
    length vector = length keys /\
    (forall r k, keys !! r = Some k -> vector !! Z.to_nat k = col !! r) /\
    (forall p, (p < length vector)%nat ->
               exists r, keys !! r = Some (Z.of_nat p) /\ vector !! p = col !! r).
Proof. apply scatter_dense_cast. Qed.

(** The first character of a string, as [sense] takes it, fits an array
    filled with the empty string. *)
Lemma substring_first_twice (s : string) :
  String.substring 0 1 (String.substring 0 1 s) = String.substring 0 1 s.
Proof. destruct s as [|c [|c' s]]; reflexivity. Qed.

Lemma np_asarray_first_char (col : list string) :
  np_asarray "" (String.substring 0 1 <$> col) = Ok (String.substring 0 1 <$> col).
Proof.
  apply np_asarray_same, Forall_forall. intros v Hv.
  apply list_elem_of_fmap in Hv as (s & -> & _).
  unfold astype, str_dtype, str_width. simpl. by rewrite substring_first_twice.
Qed.

(** X4.  Over a flat variable table with dense keys, [lb] and [ub] have
    one entry per row; the bounds of a row stand at the row's key, and
    every entry is the bound of some row (no entry is left at the [nan]
    fill). *)
Theorem bounds_follow_keys (m : Model) (d d1 : cache) (df : Vars.t) :
  MatrixAccessor.flat_vars m d = (Ok df, d1, 0%nat) ->
  keys_dense (Vars.key df) ->
  Vars.key df <> [] ->
  length (Vars.lower df) = length (Vars.key df) ->
  length (Vars.upper df) = length (Vars.key df) ->
  exists lower upper,
    MatrixAccessor.lb m d = (Ok lower, d1, 1%nat) /\
    MatrixAccessor.ub m d = (Ok upper, d1, 1%nat) /\
    length lower = length (Vars.key df) /\
    length upper = length (Vars.key df) /\
    (forall r k, Vars.key df !! r = Some k ->
                 lower !! Z.to_nat k = Vars.lower df !! r /\
                 upper !! Z.to_nat k = Vars.upper df !! r) /\
    (forall p, (p < length (Vars.key df))%nat ->
               exists r, Vars.key df !! r = Some (Z.of_nat p) /\
                         lower !! p = Vars.lower df !! r /\
                         upper !! p = Vars.upper df !! r).
Proof.
  intros Hread Hdense Hne Hlo Hup.
  destruct (scatter_dense _ (Vars.lower df) nan Hdense Hne Hlo (np_asarray_float _ _))
    as (lo & Hrunl & Hlenl & Hatl & _).
  destruct (scatter_dense _ (Vars.upper df) nan Hdense Hne Hup (np_asarray_float _ _))
    as (up & Hrunu & Hlenu & Hatu & _).
  exists lo, up. repeat split; try done.
  - unfold MatrixAccessor.lb, bind, call_create_vector. by rewrite Hread, Hrunl.
  - unfold MatrixAccessor.ub, bind, call_create_vector. by rewrite Hread, Hrunu.
  - by apply Hatl.
  - by apply Hatu.
  - intros p Hp.
    assert (Hin : Z.of_nat p ∈ Vars.key df) by (apply Hdense; lia).
    apply list_elem_of_lookup in Hin as [r Hr]. exists r. split; [done|].
    rewrite <- (Hatl r _ Hr), <- (Hatu r _ Hr). by rewrite Nat2Z.id.
Qed.

Lemma xy_keys_dense : keys_dense [0; 1; 2; 3].
Proof. intros k. simpl. rewrite !elem_of_cons, elem_of_nil. lia. Qed.

Lemma two_keys_dense : keys_dense [0; 1].
Proof. intros k. simpl. rewrite !elem_of_cons, elem_of_nil. lia. Qed.

Lemma bounds_follow_keys_witness :
  exists lower upper,
    MatrixAccessor.lb unsolved empty_cache
    = (Ok lower, set_flat_vars (Some (xy_vars None)) empty_cache, 1%nat) /\
    MatrixAccessor.ub unsolved empty_cache
    = (Ok upper, set_flat_vars (Some (xy_vars None)) empty_cache, 1%nat) /\
    length lower = length (Vars.key (xy_vars None)) /\
    length upper = length (Vars.key (xy_vars None)) /\
    (forall r k, Vars.key (xy_vars None) !! r = Some k ->
                 lower !! Z.to_nat k = Vars.lower (xy_vars None) !! r /\
                 upper !! Z.to_nat k = Vars.upper (xy_vars None) !! r) /\
    (forall p, (p < length (Vars.key (xy_vars None)))%nat ->
               exists r, Vars.key (xy_vars None) !! r = Some (Z.of_nat p) /\
                         lower !! p = Vars.lower (xy_vars None) !! r /\
                         upper !! p = Vars.upper (xy_vars None) !! r).
Proof.
  apply (bounds_follow_keys unsolved empty_cache
           (set_flat_vars (Some (xy_vars None)) empty_cache) (xy_vars None)).
  - reflexivity.
  - exact xy_keys_dense.
  - discriminate.
  - reflexivity.
  - reflexivity.
Defined.

(** X5.  Over a flat constraint table with dense keys, [b] and [sense]
    have one entry per row; a row's right-hand side stands at its key, and
    so does the first character of its sign (["<="] becomes ["<"]). *)
Theorem rhs_and_sense_follow_keys (m : Model) (d d1 : cache) (df : Cons.t) :
  MatrixAccessor.flat_cons m d = (Ok df, d1, 0%nat) ->
  keys_dense (Cons.key df) ->
  Cons.key df <> [] ->
  length (Cons.rhs df) = length (Cons.key df) ->
  length (Cons.sign df) = length (Cons.key df) ->
  exists rhs senses,
    MatrixAccessor.b m d = (Ok rhs, d1, 1%nat) /\
    MatrixAccessor.sense m d = (Ok senses, d1, 1%nat) /\
    length rhs = length (Cons.key df) /\
    length senses = length (Cons.key df) /\
    (forall r k, Cons.key df !! r = Some k ->
                 rhs !! Z.to_nat k = Cons.rhs df !! r /\
                 senses !! Z.to_nat k = String.substring 0 1 <$> Cons.sign df !! r).
Proof.
  intros Hread Hdense Hne Hrhs Hsign.
  destruct (scatter_dense _ (Cons.rhs df) nan Hdense Hne Hrhs (np_asarray_float _ _))
    as (rhs & Hrunb & Hlenb & Hatb & _).
  destruct (scatter_dense _ (String.substring 0 1 <$> Cons.sign df) "" Hdense Hne)
    as (sn & Hruns & Hlens & Hats & _);
    [by rewrite length_fmap | apply np_asarray_first_char |].
  exists rhs, sn. repeat split; try done.
  - unfold MatrixAccessor.b, bind, call_create_vector. by rewrite Hread, Hrunb.
  - unfold MatrixAccessor.sense, bind, call_create_vector.
    by rewrite Hread, map_fmap, Hruns.
  - by apply Hatb.
  - rewrite (Hats r k) by done. apply list_lookup_fmap.
Qed.

Lemma rhs_and_sense_follow_keys_witness :
  exists rhs senses,
    MatrixAccessor.b unsolved empty_cache
    = (Ok rhs, set_flat_cons (Some (two_cons None)) empty_cache, 1%nat) /\
    MatrixAccessor.sense unsolved empty_cache
    = (Ok senses, set_flat_cons (Some (two_cons None)) empty_cache, 1%nat) /\
    length rhs = length (Cons.key (two_cons None)) /\
    length senses = length (Cons.key (two_cons None)) /\
    (forall r k, Cons.key (two_cons None) !! r = Some k ->
                 rhs !! Z.to_nat k = Cons.rhs (two_cons None) !! r /\
                 senses !! Z.to_nat k
                 = String.substring 0 1 <$> Cons.sign (two_cons None) !! r).
Proof.
  apply (rhs_and_sense_follow_keys unsolved empty_cache
           (set_flat_cons (Some (two_cons None)) empty_cache) (two_cons None)).
  - reflexivity.
  - exact two_keys_dense.
  - discriminate.
  - reflexivity.
  - reflexivity.
Defined.

(** X7.  Over a non-empty flat constraint table with dense keys and
    non-sentinel labels that are unique, [clabels] has one entry per row,
    and the label of a row stands at the row's key and at no other
    position. *)
Theorem clabels_roundtrip (m : Model) (d d1 : cache) (df : Cons.t)
    (r : nat) (k l : Z) :
  MatrixAccessor.flat_cons m d = (Ok df, d1, 0%nat) ->
  keys_dense (Cons.key df) ->
  length (Cons.labels df) = length (Cons.key df) ->
  (forall i j x, Cons.labels df !! i = Some x -> Cons.labels df !! j = Some x ->
                 x <> -1 -> i = j) ->
  Cons.key df !! r = Some k ->
  Cons.labels df !! r = Some l ->
  l <> -1 ->
  exists vector,
    MatrixAccessor.clabels m d = (Ok vector, d1, 1%nat) /\
    length vector = length (Cons.key df) /\
    vector !! Z.to_nat k = Some l /\
    forall p, vector !! p = Some l -> p = Z.to_nat k.
Proof.
  intros Hread Hdense Hrows Huniq Hk Hl Hsent.
  assert (Hne : Cons.key df <> []) by (intros Heq; by rewrite Heq in Hk).
  destruct (scatter_dense _ (Cons.labels df) (-1) Hdense Hne Hrows
              (np_asarray_int64 _ (Cons.labels_int64 df)))
    as (vector & Hrun & Hlen & Hat & Hcover).
  exists vector. split; [|split; [done|split]].
  - unfold MatrixAccessor.clabels, bind, call_create_vector, Cons.empty.
    rewrite Hread. destruct (Cons.key df); [done|]. simpl. by rewrite Hrun.
  - by rewrite (Hat r k Hk).
  - intros p Hp.
    destruct (Hcover p) as (r' & Hr' & Hv); [by apply lookup_lt_Some in Hp|].
    rewrite Hp in Hv. symmetry in Hv.
    pose proof (Huniq _ _ _ Hv Hl Hsent) as ->.
    rewrite Hk in Hr'. injection Hr' as ->. by rewrite Nat2Z.id.
Qed.

Lemma clabels_roundtrip_witness :
  exists vector,
    MatrixAccessor.clabels unsolved empty_cache
    = (Ok vector, set_flat_cons (Some (two_cons None)) empty_cache, 1%nat) /\
    length vector = length (Cons.key (two_cons None)) /\
    vector !! Z.to_nat 1 = Some 1 /\
    forall p, vector !! p = Some 1 -> p = Z.to_nat 1.
Proof.
  apply (clabels_roundtrip unsolved empty_cache
           (set_flat_cons (Some (two_cons None)) empty_cache) (two_cons None)
           1%nat 1 1).
  - reflexivity.
  - exact two_keys_dense.
  - reflexivity.
  - intros i j x Hi Hj _. simpl in Hi, Hj.
    destruct i as [|[|i]], j as [|[|j]]; by simplify_eq/=.
  - reflexivity.
  - reflexivity.
  - lia.
Defined.

(** ** The constraint matrix *)

(** X8.  [A] returns [None] when the model has no constraint matrix, and
    then reads and caches nothing.  Otherwise it returns the full matrix
    with its rows selected by [clabels] and its columns by [vlabels]:
    entry [(i, j)] of the result is entry [(clabels[i], vlabels[j])] of
    the full matrix. *)
Theorem A_absent_or_reindexed :
  (forall m d,
      constraints_to_matrix m = None ->
      MatrixAccessor.A m d = (Ok None, d, 0%nat)) /\
  (forall m d M rlabels clabels d1 d2 n1,
      constraints_to_matrix m = Some M ->
      MatrixAccessor.clabels m d = (Ok rlabels, d1, n1) ->
      MatrixAccessor.vlabels m d1 = (Ok clabels, d2, 1%nat) ->
      Forall (fun l => 0 <= l < Z.of_nat (length (rows M))) rlabels ->
      Forall (fun l => 0 <= l < Z.of_nat (ncols M)) clabels ->
      exists M',
        MatrixAccessor.A m d = (Ok (Some M'), d2, (n1 + 1)%nat) /\
        length (rows M') = length rlabels /\
        ncols M' = length clabels /\
        forall i j li lj,
          rlabels !! i = Some li -> clabels !! j = Some lj ->
          entry M' i j = entry M (Z.to_nat li) (Z.to_nat lj)).
Proof.
  split.
  - intros m d Hnone. unfold MatrixAccessor.A. by rewrite Hnone.
  - intros m d M rl cl d1 d2 n1 HM Hrl Hcl Hrows Hcols.
    eexists. split; [|split; [|split]].
    + unfold MatrixAccessor.A. rewrite HM.
      unfold bind at 1. rewrite Hrl.
      unfold bind at 1, lift, take_rows.
      rewrite (take_rows_of_in_range _ _ Hrows). simpl.
      unfold bind at 1. rewrite Hcl.
      unfold bind, take_cols. simpl.
      rewrite (col_positions_in_range _ _ Hcols). simpl.
      match goal with
      | |- (_, _, ?n) = _ => replace n with (n1 + 1)%nat by lia
      end.
      reflexivity.
    + simpl. by rewrite !map_fmap, !length_fmap.
    + reflexivity.
    + intros i j li lj Hi Hj. unfold entry. simpl.
      rewrite !map_fmap.
      rewrite (nth_lookup _ i), list_lookup_fmap, list_lookup_fmap, Hi. simpl.
      rewrite (nth_lookup _ j), list_lookup_fmap, list_lookup_fmap, Hj. simpl.
      reflexivity.
Qed.

Lemma A_absent_or_reindexed_witness :
  MatrixAccessor.A unsolved empty_cache = (Ok None, empty_cache, 0%nat) /\
  exists M',
    MatrixAccessor.A with_matrix empty_cache
    = (Ok (Some M'),
       set_flat_vars (Some (xy_vars None))
         (set_flat_cons (Some (two_cons None)) empty_cache), (1 + 1)%nat) /\
    length (rows M') = length [0; 1] /\
    ncols M' = length [0; 1; 2; 3] /\
    forall i j li lj,
      [0; 1] !! i = Some li -> [0; 1; 2; 3] !! j = Some lj ->
      entry M' i j
      = entry {| ncols := 4; rows := [[1; 0; 2; 0]; [0; 1; 0; 3]]%float |}
          (Z.to_nat li) (Z.to_nat lj).
Proof.
  split.
  - apply (proj1 A_absent_or_reindexed unsolved empty_cache). reflexivity.
  - apply (proj2 A_absent_or_reindexed with_matrix empty_cache _ [0; 1] [0; 1; 2; 3]
             (set_flat_cons (Some (two_cons None)) empty_cache)).
    + reflexivity.
    + reflexivity.
    + reflexivity.
    + repeat constructor; simpl; lia.
    + repeat constructor; simpl; lia.
Defined.

(** ** The variable types *)

Lemma series_get_at {V} (index : list Z) (vals : list V) (r : nat) (l : Z) (x : V) :
  NoDup index ->
  index !! r = Some l -> vals !! r = Some x ->
  series_get index vals l = Some x.
Proof.
  intros Hnd. revert vals r.
  induction Hnd as [|i index Hnotin _ IH]; intros vals r Hl Hx; [done|].
  destruct vals as [|v vals]; [done|].
  destruct r as [|r]; simpl in *.
  - simplify_eq. by rewrite Z.eqb_refl.
  - destruct (Z.eqb_spec i l) as [->|_].
    + exfalso. apply Hnotin. by eapply list_elem_of_lookup_2.
    + by eapply IH.
Qed.

Lemma series_get_pair {V} (pairs : list (Z * V)) (l : Z) (x : V) :
  NoDup (pairs.*1) -> (l, x) ∈ pairs ->
  series_get (pairs.*1) (pairs.*2) l = Some x.
Proof.
  intros Hnd Hin. apply list_elem_of_lookup in Hin as [r Hr].
  apply (series_get_at _ _ r); [done | |]; rewrite list_lookup_fmap, Hr; done.
Qed.

Lemma fst_tagged {V} (x : V) (ls : list Z) :
  (map (fun l => (l, x)) ls).*1 = ls.
Proof. induction ls as [|l ls IH]; [done|]. simpl. f_equal. exact IH. Qed.

(** The index of the Series that [vtypes] concatenates holds the labels of
    the variables, in order. *)
Lemma specs_index (code : string -> string) (vars : list (string * list Z)) :
  (concat (map (fun nl : string * list Z =>
                  map (fun l => (l, code nl.1)) nl.2) vars)).*1
  = concat (vars.*2).
Proof.
  induction vars as [|[name ls] vars IH]; [done|].
  simpl. by rewrite fmap_app, IH, fst_tagged.
Qed.

Lemma specs_member (code : string -> string) (vars : list (string * list Z))
    (name : string) (ls : list Z) (l : Z) :
  (name, ls) ∈ vars -> l ∈ ls ->
  (l, code name) ∈ concat (map (fun nl : string * list Z =>
                                  map (fun l => (l, code nl.1)) nl.2) vars).
Proof.
  induction vars as [|[name' ls'] vars IH]; intros Hin Hl.
  - by apply elem_of_nil in Hin.
  - simpl. apply elem_of_app. apply elem_of_cons in Hin as [Heq|Hin].
    + left. injection Heq as <- <-.
      change (map (fun l0 : Z => (l0, code name)) ls)
        with ((fun l0 : Z => (l0, code name)) <$> ls).
      apply list_elem_of_fmap. by exists l.
    + right. by apply IH.
Qed.

Lemma pd_concat_nonempty {V} (specs : list (list (Z * V))) :
  specs <> [] -> pd_concat specs = Ok (concat specs).
Proof. by destruct specs. Qed.

(** The pandas part of [vtypes], then the one call of the builder. *)
Lemma vtypes_run (m : Model) (d d1 : cache) (df : Vars.t) :
  MatrixAccessor.flat_vars m d = (Ok df, d1, 0%nat) ->
  MatrixAccessor.vtypes m d
  = (let? ds := pd_concat
                  (map (fun nl : string * list Z =>
                          map (fun l => (l, if bool_decide (nl.1 ∈ binaries m) then "B"
                                            else if bool_decide (nl.1 ∈ integers m) then "I"
                                            else "C")) nl.2)
                       (variables m)) in
     let? types := series_map (Vars.labels df) (map fst ds) (map snd ds) in
     create_vector (Vars.key df) types (Some "") None,
     d1,
     match pd_concat
             (map (fun nl : string * list Z =>
                     map (fun l => (l, if bool_decide (nl.1 ∈ binaries m) then "B"
                                       else if bool_decide (nl.1 ∈ integers m) then "I"
                                       else "C")) nl.2)
                  (variables m)) with
     | Ok ds =>
         match series_map (Vars.labels df) (map fst ds) (map snd ds) with
         | Ok _ => 1%nat
         | Raise _ => 0%nat
         end
     | Raise _ => 0%nat
     end).
Proof.
  intros Hread. unfold MatrixAccessor.vtypes, bind. rewrite Hread. cbv zeta.
  destruct (pd_concat _) as [ds|e]; [|done]. simpl.
  by destruct (series_map _ _ _).
Qed.

(** The type codes, with the float [nan] where the [map] found none, as
    an array filled with the empty string stores them. *)
Lemma np_asarray_str_or_nan (f : string) (col : list (option string)) :
  np_asarray (Some f) col
  = Ok ((fun v => Some (String.substring 0 (str_width f) (default "nan" v))) <$> col).
Proof.
  induction col as [|v col IH]; [done|].
  rewrite fmap_cons. simpl. rewrite IH. by destruct v.
Qed.

(** X9.  [vtypes] gives every key the type code of the variable that holds
    the label of the key's row: ["B"] when the variable's name is in
    [m.binaries] (also when it is in [m.integers] too), ["I"] when it is
    only in [m.integers], ["C"] otherwise.  This holds over a flat
    variable table with dense keys when no label belongs to two
    variables. *)
Theorem vtypes_codes (m : Model) (d d1 : cache) (df : Vars.t)
    (name : string) (ls : list Z) (l : Z) (r : nat) (k : Z) :
  MatrixAccessor.flat_vars m d = (Ok df, d1, 0%nat) ->
  keys_dense (Vars.key df) ->
  length (Vars.labels df) = length (Vars.key df) ->
  NoDup (concat ((variables m).*2)) ->
  (name, ls) ∈ variables m ->
  l ∈ ls ->
  Vars.labels df !! r = Some l ->
  Vars.key df !! r = Some k ->
  exists vector,
    MatrixAccessor.vtypes m d = (Ok vector, d1, 1%nat) /\
    length vector = length (Vars.key df) /\
    (name ∈ binaries m -> vector !! Z.to_nat k = Some (Some "B")) /\
    (name ∉ binaries m -> name ∈ integers m ->
     vector !! Z.to_nat k = Some (Some "I")) /\
    (name ∉ binaries m -> name ∉ integers m ->
     vector !! Z.to_nat k = Some (Some "C")).
Proof.
  intros Hread Hdense Hrows Hnd Hvar Hl Hlab Hkey.
  set (code := fun name : string =>
                 if bool_decide (name ∈ binaries m) then "B"
                 else if bool_decide (name ∈ integers m) then "I" else "C").
  set (ds := concat (map (fun nl : string * list Z =>
                            map (fun l => (l, code nl.1)) nl.2) (variables m))).
  assert (Hne : Vars.key df <> []) by (intros Heq; by rewrite Heq in Hkey).
  destruct (scatter_dense_cast (Vars.key df)
              (series_get (ds.*1) (ds.*2) <$> Vars.labels df)
              ((fun v => Some (String.substring 0 (str_width "") (default "nan" v)))
                 <$> (series_get (ds.*1) (ds.*2) <$> Vars.labels df))
              (Some "") Hdense Hne)
    as (vector & Hrun & Hlen & Hat & _);
    [by rewrite length_fmap | apply np_asarray_str_or_nan |].
  assert (Hcode : vector !! Z.to_nat k = Some (Some (code name))).
  { rewrite (Hat r k Hkey), !list_lookup_fmap, Hlab. simpl. f_equal.
    rewrite (series_get_pair ds l (code name)).
    - unfold code. by repeat case_bool_decide.
    - unfold ds. by rewrite specs_index.
    - by apply (specs_member code (variables m) name ls). }
  exists vector. split; [|split; [done|]].
  - rewrite (vtypes_run m d d1 df Hread).
    rewrite pd_concat_nonempty.
    2:{ destruct (variables m); [by apply elem_of_nil in Hvar | done]. }
    assert (Hnd' : NoDup (ds.*1)) by (unfold ds; by rewrite specs_index).
    unfold rbind at 1. unfold series_map.
    rewrite bool_decide_true by exact Hnd'.
    unfold rbind. by rewrite <- Hrun.
  - rewrite Hcode. unfold code. repeat split.
    + intros Hb. by rewrite bool_decide_true.
    + intros Hb Hi. by rewrite bool_decide_false, bool_decide_true.
    + intros Hb Hi. by rewrite !bool_decide_false.
Qed.

Lemma vtypes_codes_witness :
  exists vector,
    MatrixAccessor.vtypes with_matrix empty_cache
    = (Ok vector, set_flat_vars (Some (xy_vars None)) empty_cache, 1%nat) /\
    length vector = length (Vars.key (xy_vars None)) /\
    ("x" ∈ binaries with_matrix -> vector !! Z.to_nat 1 = Some (Some "B")) /\
    ("x" ∉ binaries with_matrix -> "x" ∈ integers with_matrix ->
     vector !! Z.to_nat 1 = Some (Some "I")) /\
    ("x" ∉ binaries with_matrix -> "x" ∉ integers with_matrix ->
     vector !! Z.to_nat 1 = Some (Some "C")).
Proof.
  apply (vtypes_codes with_matrix empty_cache
           (set_flat_vars (Some (xy_vars None)) empty_cache) (xy_vars None)
           "x" [0; 1] 1 1%nat 1).
  - reflexivity.
  - exact xy_keys_dense.
  - reflexivity.
  - exact (bool_decide_unpack (NoDup [0; 1; 2; 3]) I).
  - simpl. rewrite !elem_of_cons. tauto.
  - rewrite !elem_of_cons. tauto.
  - reflexivity.
  - reflexivity.
Defined.

(** A label of the flat table that no variable holds gets the type ["n"]:
    the [nan] of the [map], cut to one character. *)
Example vtypes_unknown_label :
  (MatrixAccessor.vtypes (sample "initialized" masked_vars no_cons xy_objective)
     empty_cache).1.1
  = Ok [Some "n"; Some "n"; Some "n"; Some "n"].
Proof. reflexivity. Qed.

(** X10.  When two variables of the model hold the same label, [vtypes]
    fails in pandas before the builder is entered: the [map] refuses the
    concatenated Series as a mapper ([InvalidIndexError]).  The flat
    variable table read first stays cached. *)
Theorem vtypes_errors (m : Model) (d d1 : cache) (df : Vars.t) :
  MatrixAccessor.flat_vars m d = (Ok df, d1, 0%nat) ->
  variables m <> [] ->
  ~ NoDup (concat ((variables m).*2)) ->
  MatrixAccessor.vtypes m d
  = (Raise (InvalidIndexError
              "Reindexing only valid with uniquely valued Index objects"),
     d1, 0%nat).
Proof.
  intros Hread Hvars Hdup. rewrite (vtypes_run m d d1 df Hread).
  rewrite pd_concat_nonempty by by destruct (variables m).
  unfold rbind at 1 2. unfold series_map.
  rewrite bool_decide_false; [done|].
  intros Hnd. apply Hdup.
  rewrite <- (specs_index
                (fun name : string =>
                   if bool_decide (name ∈ binaries m) then "B"
                   else if bool_decide (name ∈ integers m) then "I" else "C")
                (variables m)).
  exact Hnd.
Qed.

Lemma vtypes_errors_witness :
  MatrixAccessor.vtypes overlapping empty_cache
  = (Raise (InvalidIndexError
              "Reindexing only valid with uniquely valued Index objects"),
     set_flat_vars (Some (xy_vars None)) empty_cache, 0%nat).
Proof.
  apply (vtypes_errors overlapping empty_cache _ (xy_vars None)).
  - reflexivity.
  - discriminate.
  - intros Hnd. apply (bool_decide_pack _) in Hnd. exact Hnd.
Defined.

(** ** The objective coefficients, any objective *)

Lemma shape_of_dense_keys (keys : list Z) :
  keys_dense keys -> keys <> [] ->
  number_add (series_max keys) 1 = Int (Z.of_nat (length keys)).
Proof.
  intros Hdense Hne. destruct keys as [|first rest] eqn:Hkeys; [done|].
  simpl number_add. f_equal. by apply keys_dense_max.
Qed.

(** The call of the builder that [c] makes when the table holds the label
    of every term. *)
Lemma c_terms_run (m : Model) (d d1 : cache) (df : Vars.t) :
  MatrixAccessor.flat_vars m d = (Ok df, d1, 0%nat) ->
  length (Vars.labels df) = length (Vars.key df) ->
  keys_dense (Vars.key df) ->
  Vars.key df <> [] ->
  NoDup (Vars.labels df) ->
  (forall t, t ∈ MatrixAccessor.objective_terms m -> t.1 ∈ Vars.labels df) ->
  exists vector,
    MatrixAccessor.c m d = (Ok vector, d1, 1%nat) /\
    length vector = length (Vars.key df) /\
    forall p : nat,
      (p < length vector)%nat ->
      vector !! p
      = Some (default 0%float
                (last_write
                   ((fun t : Z * float =>
                       (default 0 (series_get (Vars.labels df) (Vars.key df) t.1), t.2))
                      <$> MatrixAccessor.objective_terms m)
                   (Z.of_nat p))).
Proof.
  intros Hread Hrows Hdense Hne Hnd Hfound.
  set (key_of := fun l => default 0 (series_get (Vars.labels df) (Vars.key df) l)).
  set (L := MatrixAccessor.objective_terms m).
  assert (HL : forall t, t ∈ L ->
            exists k, series_get (Vars.labels df) (Vars.key df) t.1 = Some k /\
                      k ∈ Vars.key df).
  { intros t Ht.
    destruct (label_key df t.1 Hrows Hnd (Hfound t Ht)) as (r & k & _ & Hk & Hget).
    exists k. split; [done|]. by eapply list_elem_of_lookup_2. }
  destruct (create_vector_spec ((key_of ∘ fst) <$> L) (snd <$> L) 0%float
              (Some (Int (Z.of_nat (length (Vars.key df)))))
              (Z.of_nat (length (Vars.key df))))
    as (vector & Hrun & Hlen & Hget);
    [by rewrite !length_fmap | done | | lia | apply np_asarray_float |].
  { apply Forall_forall. intros i Hi.
    apply list_elem_of_fmap in Hi as (t & -> & Ht).
    destruct (HL t Ht) as (k & Hk & Hin). unfold key_of, compose. rewrite Hk.
    by apply Hdense. }
  rewrite Nat2Z.id in Hlen, Hget.
  exists vector. split; [|split; [done|]].
  - unfold MatrixAccessor.c, bind. rewrite Hread. fold L.
    unfold series_map, lift. rewrite bool_decide_true by done.
    rewrite (flat_vars_again m m d d1 df Hread).
    rewrite !map_fmap.
    rewrite <- (list_fmap_compose fst (series_get (Vars.labels df) (Vars.key df))).
    rewrite (list_fmap_compose fst (series_get (Vars.labels df) (Vars.key df))).
    rewrite as_ints_found.
    2:{ intros x Hx. apply list_elem_of_fmap in Hx as (t & -> & Ht).
        destruct (HL t Ht) as (k & Hk & _). eauto. }
    rewrite <- list_fmap_compose.
    rewrite (shape_of_dense_keys _ Hdense Hne). unfold call_create_vector.
    change ((fun x => default 0 (series_get (Vars.labels df) (Vars.key df) x)) ∘ fst)
      with (key_of ∘ (@fst Z float)).
    change (map snd L) with (snd <$> L).
    by rewrite Hrun.
  - intros p Hp. rewrite Hget by lia. rewrite combine_fmap. done.
Qed.

(** X11.  For a linear objective, over a flat variable table with dense
    keys and distinct labels that holds the variable of every term: [c]
    has one entry per row of the table; a term puts its coefficient at the
    key of its variable, and when several terms name the same variable the
    last one stands there (coefficients are not added up); every key that
    no term addresses holds [0.0]. *)
Theorem c_linear_objective (m : Model) (d d1 : cache) (df : Vars.t)
    (flat : list (Z * float)) :
  objective_expression m = LinearExpression flat ->
  MatrixAccessor.flat_vars m d = (Ok df, d1, 0%nat) ->
  length (Vars.labels df) = length (Vars.key df) ->
  keys_dense (Vars.key df) ->
  Vars.key df <> [] ->
  NoDup (Vars.labels df) ->
  (forall t, t ∈ flat -> t.1 ∈ Vars.labels df) ->
  exists vector,
    MatrixAccessor.c m d = (Ok vector, d1, 1%nat) /\
    length vector = length (Vars.key df) /\
    (forall (j : nat) (t : Z * float) (r : nat) (k : Z),
        flat !! j = Some t ->
        Vars.labels df !! r = Some t.1 -> Vars.key df !! r = Some k ->
        (forall (j' : nat) (t' : Z * float),
            (j < j')%nat -> flat !! j' = Some t' -> t'.1 <> t.1) ->
        vector !! Z.to_nat k = Some t.2) /\
    (forall (p : nat) (r : nat),
        Vars.key df !! r = Some (Z.of_nat p) ->
        (forall t, t ∈ flat -> Vars.labels df !! r <> Some t.1) ->
        vector !! p = Some 0%float).
Proof.
  intros Hobj Hread Hrows Hdense Hne Hnd Hfound.
  assert (Hterms : MatrixAccessor.objective_terms m = flat).
  { unfold MatrixAccessor.objective_terms. by rewrite Hobj. }
  destruct (c_terms_run m d d1 df Hread Hrows Hdense Hne Hnd)
    as (vector & Hrun & Hlen & Hget); [by rewrite Hterms|].
  rewrite Hterms in Hget.
  pose proof (keys_dense_NoDup _ Hdense) as Hkeys.
  exists vector. split; [done|]. split; [done|].
  set (w := fun t : Z * float =>
              (default 0 (series_get (Vars.labels df) (Vars.key df) t.1), t.2)) in Hget.
  assert (Hw : forall t, t ∈ flat ->
             exists r k, Vars.labels df !! r = Some t.1 /\
                         Vars.key df !! r = Some k /\ (w t).1 = k).
  { intros t Hin.
    destruct (label_key df t.1 Hrows Hnd (Hfound t Hin)) as (r & k & Hr & Hk & Hsg).
    exists r, k. unfold w. simpl. by rewrite Hsg. }
  split.
  - intros j t r k Hj Hr Hk Hlater.
    assert (Hkr : 0 <= k < Z.of_nat (length (Vars.key df))).
    { apply Hdense. by eapply list_elem_of_lookup_2. }
    rewrite Hget by lia. rewrite Z2Nat.id by lia.
    rewrite <- (take_drop_middle flat j t Hj).
    rewrite fmap_app, fmap_cons, last_write_app. simpl.
    rewrite last_write_none.
    + unfold w at 1. simpl. rewrite (series_get_row _ _ r _ k Hnd Hr Hk).
      by rewrite Z.eqb_refl.
    + intros x Hx. apply list_elem_of_fmap in Hx as (t' & -> & Ht').
      apply list_elem_of_lookup in Ht' as [q Hq]. rewrite lookup_drop in Hq.
      destruct (Hw t') as (r' & k' & Hr' & Hk' & ->).
      { by eapply list_elem_of_lookup_2. }
      intros ->.
      pose proof (NoDup_lookup _ _ _ _ Hkeys Hk Hk') as <-.
      apply (Hlater (S j + q)%nat t'); [clear; lia | done | congruence].
  - intros p r Hp Hnone.
    assert (Hlt : (p < length vector)%nat).
    { assert (Hin : Z.of_nat p ∈ Vars.key df) by by eapply list_elem_of_lookup_2.
      apply Hdense in Hin. lia. }
    rewrite Hget by done.
    rewrite last_write_none; [done|].
    intros x Hx. apply list_elem_of_fmap in Hx as (t & -> & Ht).
    destruct (Hw t Ht) as (r' & k & Hr' & Hk & ->).
    intros ->.
    pose proof (NoDup_lookup _ _ _ _ Hkeys Hp Hk) as ->.
    by apply (Hnone t Ht).
Qed.

Lemma c_linear_objective_witness :
  exists vector,
    MatrixAccessor.c with_matrix empty_cache
    = (Ok vector, set_flat_vars (Some (xy_vars None)) empty_cache, 1%nat) /\
    length vector = length (Vars.key (xy_vars None)) /\
    (forall (j : nat) (t : Z * float) (r : nat) (k : Z),
        [(0, 2%float); (3, 1%float); (0, 5%float)] !! j = Some t ->
        Vars.labels (xy_vars None) !! r = Some t.1 ->
        Vars.key (xy_vars None) !! r = Some k ->
        (forall (j' : nat) (t' : Z * float),
            (j < j')%nat ->
            [(0, 2%float); (3, 1%float); (0, 5%float)] !! j' = Some t' ->
            t'.1 <> t.1) ->
        vector !! Z.to_nat k = Some t.2) /\
    (forall (p : nat) (r : nat),
        Vars.key (xy_vars None) !! r = Some (Z.of_nat p) ->
        (forall t, t ∈ [(0, 2%float); (3, 1%float); (0, 5%float)] ->
                   Vars.labels (xy_vars None) !! r <> Some t.1) ->
        vector !! p = Some 0%float).
Proof.
  apply (c_linear_objective with_matrix empty_cache
           (set_flat_vars (Some (xy_vars None)) empty_cache) (xy_vars None)
           [(0, 2%float); (3, 1%float); (0, 5%float)]).
  - reflexivity.
  - reflexivity.
  - reflexivity.
  - exact xy_keys_dense.
  - discriminate.
  - exact (bool_decide_unpack (NoDup (Vars.labels (xy_vars None))) I).
  - intros t Ht. simpl. rewrite !elem_of_cons, elem_of_nil in Ht.
    destruct Ht as [-> | [-> | [-> | []]]]; simpl; rewrite !elem_of_cons; tauto.
Defined.

(** The coefficient of the repeated variable of the sample: the later
    term wins. *)
Example c_last_coefficient_wins :
  (MatrixAccessor.c with_matrix empty_cache).1.1 = Ok [5; 0; 0; 1]%float.
Proof. reflexivity. Qed.

Lemma series_get_absent {V} (index : list Z) (vals : list V) (l : Z) :
  l ∉ index -> series_get index vals l = None.
Proof.
  revert vals. induction index as [|i index IH]; intros vals Hl; [done|].
  destruct vals as [|v vals]; [done|]. simpl.
  apply not_elem_of_cons in Hl as [Hne Hl].
  destruct (Z.eqb_spec i l); [congruence | by apply IH].
Qed.

Lemma as_ints_nan (xs : list (option Z)) :
  None ∈ xs -> as_ints xs = None.
Proof.
  induction xs as [|[z|] xs IH]; intros Hin.
  - by apply elem_of_nil in Hin.
  - apply elem_of_cons in Hin as [Heq|Hin]; [done|].
    simpl. by rewrite IH.
  - done.
Qed.

Lemma c_unknown_term (m : Model) (d d1 : cache) (df : Vars.t) (t : Z * float) :
  MatrixAccessor.flat_vars m d = (Ok df, d1, 0%nat) ->
  NoDup (Vars.labels df) ->
  keys_dense (Vars.key df) ->
  Vars.key df <> [] ->
  t ∈ MatrixAccessor.objective_terms m ->
  t.1 ∉ Vars.labels df ->
  MatrixAccessor.c m d
  = (Raise (IndexError "arrays used as indices must be of integer (or boolean) type"),
     d1, 1%nat).
Proof.
  intros Hread Hnd Hdense Hne Ht Hnot.
  unfold MatrixAccessor.c, bind. rewrite Hread.
  unfold series_map, lift. rewrite bool_decide_true by done.
  rewrite (flat_vars_again m m d d1 df Hread).
  rewrite as_ints_nan.
  - rewrite (shape_of_dense_keys _ Hdense Hne).
    rewrite np_full_ok by lia. reflexivity.
  - rewrite <- (series_get_absent (Vars.labels df) (Vars.key df) t.1 Hnot).
    change (map ?f ?l) with (f <$> l).
    apply list_elem_of_fmap. exists t.1. split; [done|].
    apply list_elem_of_fmap. by exists t.
Qed.

(** X12.  A coefficient is never dropped silently: when the objective has
    a term whose variable is not a label of the flat variable table (for a
    quadratic objective: a linear term, which includes a term with the
    sentinel in both slots), [c] raises [IndexError], after one entry into
    the builder. *)
Theorem c_unknown_label :
  (forall m d d1 df flat t,
      objective_expression m = LinearExpression flat ->
      MatrixAccessor.flat_vars m d = (Ok df, d1, 0%nat) ->
      NoDup (Vars.labels df) ->
      keys_dense (Vars.key df) ->
      Vars.key df <> [] ->
      t ∈ flat ->
      t.1 ∉ Vars.labels df ->
      MatrixAccessor.c m d
      = (Raise (IndexError "arrays used as indices must be of integer (or boolean) type"),
         d1, 1%nat)) /\
  (forall m d d1 df flat M t,
      objective_expression m = QuadraticExpression flat M ->
      MatrixAccessor.flat_vars m d = (Ok df, d1, 0%nat) ->
      NoDup (Vars.labels df) ->
      keys_dense (Vars.key df) ->
      Vars.key df <> [] ->
      t ∈ flat ->
      linear_term t ->
      real_label t ∉ Vars.labels df ->
      MatrixAccessor.c m d
      = (Raise (IndexError "arrays used as indices must be of integer (or boolean) type"),
         d1, 1%nat)).
Proof.
  split.
  - intros m d d1 df flat t Hobj Hread Hnd Hdense Hne Ht Hnot.
    apply (c_unknown_term m d d1 df t); try done.
    unfold MatrixAccessor.objective_terms. by rewrite Hobj.
  - intros m d d1 df flat M t Hobj Hread Hnd Hdense Hne Ht Hlin Hnot.
    apply (c_unknown_term m d d1 df (real_label t, t.2)); try done.
    rewrite (objective_terms_quadratic m flat M Hobj).
    apply list_elem_of_fmap. exists t. split; [done|].
    by apply list_elem_of_filter.
Qed.

Lemma c_unknown_label_witness :
  MatrixAccessor.c overlapping empty_cache
    = (Raise (IndexError "arrays used as indices must be of integer (or boolean) type"),
       set_flat_vars (Some (xy_vars None)) empty_cache, 1%nat) /\
  MatrixAccessor.c
      (sample "initialized" (xy_vars None) no_cons
         (QuadraticExpression [(0, 2, 1%float); (-1, -1, 5%float)]
            {| ncols := 4; rows := identity4 |}))
      empty_cache
    = (Raise (IndexError "arrays used as indices must be of integer (or boolean) type"),
       set_flat_vars (Some (xy_vars None)) empty_cache, 1%nat).
Proof.
  split.
  - apply (proj1 c_unknown_label overlapping empty_cache _ (xy_vars None)
             [(0, 2%float); (9, 1%float)] (9, 1%float)).
    + reflexivity.
    + reflexivity.
    + exact (bool_decide_unpack (NoDup (Vars.labels (xy_vars None))) I).
    + exact xy_keys_dense.
    + discriminate.
    + rewrite !elem_of_cons. tauto.
    + simpl. rewrite !elem_of_cons, elem_of_nil. lia.
  - apply (proj2 c_unknown_label _ empty_cache _ (xy_vars None)
             [(0, 2, 1%float); (-1, -1, 5%float)]
             {| ncols := 4; rows := identity4 |} (-1, -1, 5%float)).
    + reflexivity.
    + reflexivity.
    + exact (bool_decide_unpack (NoDup (Vars.labels (xy_vars None))) I).
    + exact xy_keys_dense.
    + discriminate.
    + rewrite !elem_of_cons. tauto.
    + by left.
    + unfold real_label. simpl. rewrite !elem_of_cons, elem_of_nil. lia.
Defined.

(** ** Reads, repeated and interleaved *)

Lemma getattr_keeps_flat_vars (m : Model) (v : view) (d : cache) (T : Vars.t) :
  v <> V_sol -> d_flat_vars d = Some T ->
  d_flat_vars (cache_after (getattr m v) d) = Some T.
Proof.
  intros Hs HT. destruct (decide (v = V_dual)) as [->|Hd].
  - unfold cache_after. rewrite getattr_dual_run. simpl.
    pose proof (dual_outcome m d) as H.
    destruct (MatrixAccessor.dual m d) as [[[a|e] d'] n]; simpl.
    + destruct H as (_ & _ & _ & ->). done.
    + destruct H as (_ & _ & _ & [-> | [? _]] & _); done.
  - destruct (getattr_fills m v Hs Hd d) as (_ & _ & [-> | (_ & Hn & _)] & _);
      [done | congruence].
Qed.

Lemma getattr_keeps_flat_cons (m : Model) (v : view) (d : cache) (T : Cons.t) :
  v <> V_dual -> d_flat_cons d = Some T ->
  d_flat_cons (cache_after (getattr m v) d) = Some T.
Proof.
  intros Hd HT. destruct (decide (v = V_sol)) as [->|Hs].
  - unfold cache_after. rewrite getattr_sol_run. simpl.
    pose proof (sol_outcome m d) as H.
    destruct (MatrixAccessor.sol m d) as [[[a|e] d'] n]; simpl.
    + destruct H as (_ & _ & _ & ->). done.
    + destruct H as (_ & _ & _ & _ & [-> | [? _]]); done.
  - destruct (getattr_fills m v Hs Hd d) as (_ & _ & _ & [-> | (_ & Hn & _)]);
      [done | congruence].
Qed.

(** X13.  A cached flat table outlives changes of the model.  Once the
    flat variable table is cached, every sequence of reads that does not
    read [sol], on whatever states of the model, leaves that table in the
    dictionary, and [vlabels] keeps answering from it; likewise the cached
    flat constraint table under reads other than [dual], and [clabels]. *)
Theorem cached_tables_outlive_model :
  (forall (trace : list (Model * view)) (d : cache) (T : Vars.t),
      d_flat_vars d = Some T ->
      Forall (fun mv => mv.2 <> V_sol) trace ->
      d_flat_vars (reads trace d) = Some T /\
      forall m',
        (MatrixAccessor.vlabels m' (reads trace d)).1.1
        = create_vector (Vars.key T) (Vars.labels T) (-1) None) /\
  (forall (trace : list (Model * view)) (d : cache) (T : Cons.t),
      d_flat_cons d = Some T ->
      Forall (fun mv => mv.2 <> V_dual) trace ->
      d_flat_cons (reads trace d) = Some T /\
      forall m',
        (MatrixAccessor.clabels m' (reads trace d)).1.1
        = if Cons.empty T then Ok []
          else create_vector (Cons.key T) (Cons.labels T) (-1) None).
Proof.
  split.
  - intros trace d T HT Htrace.
    assert (Hkept : d_flat_vars (reads trace d) = Some T).
    { revert d HT. induction Htrace as [|[m v] trace Hv _ IH]; intros d HT; [done|].
      simpl. apply IH. by apply getattr_keeps_flat_vars. }
    split; [done|]. intros m'.
    unfold MatrixAccessor.vlabels, bind, MatrixAccessor.flat_vars, cached_property,
      call_create_vector.
    rewrite Hkept. by destruct (create_vector _ _ _ _).
  - intros trace d T HT Htrace.
    assert (Hkept : d_flat_cons (reads trace d) = Some T).
    { revert d HT. induction Htrace as [|[m v] trace Hv _ IH]; intros d HT; [done|].
      simpl. apply IH. by apply getattr_keeps_flat_cons. }
    split; [done|]. intros m'.
    unfold MatrixAccessor.clabels, bind, MatrixAccessor.flat_cons, cached_property,
      call_create_vector, ret.
    rewrite Hkept. destruct (Cons.empty T); [done|].
    by destruct (create_vector _ _ _ _).
Qed.

Lemma cached_tables_outlive_model_witness :
  (d_flat_vars
     (reads [(solved, V_lb); (solved_no_duals, V_dual); (unsolved, V_c)]
        (set_flat_vars (Some masked_vars) empty_cache))
   = Some masked_vars /\
   forall m',
     (MatrixAccessor.vlabels m'
        (reads [(solved, V_lb); (solved_no_duals, V_dual); (unsolved, V_c)]
           (set_flat_vars (Some masked_vars) empty_cache))).1.1
     = create_vector (Vars.key masked_vars) (Vars.labels masked_vars) (-1) None) /\
  (d_flat_cons
     (reads [(solved, V_sol); (solved_no_duals, V_b)]
        (set_flat_cons (Some (two_cons None)) empty_cache))
   = Some (two_cons None) /\
   forall m',
     (MatrixAccessor.clabels m'
        (reads [(solved, V_sol); (solved_no_duals, V_b)]
           (set_flat_cons (Some (two_cons None)) empty_cache))).1.1
     = if Cons.empty (two_cons None) then Ok []
       else create_vector (Cons.key (two_cons None)) (Cons.labels (two_cons None))
              (-1) None).
Proof.
  split.
  - apply (proj1 cached_tables_outlive_model); [reflexivity|].
    repeat constructor; discriminate.
  - apply (proj2 cached_tables_outlive_model); [reflexivity|].
    repeat constructor; discriminate.
Defined.

(** A computation that only fills tables and is settled after one run. *)
Section Settled.
Variable m : Model.

Lemma settled_const {A} (x : acc A) (r : result A) (n : nat) :
  (forall d, x d = (r, d, n)) -> settled m x.
Proof. intros Hx d d2 _. unfold cache_after. by rewrite !Hx. Qed.

Lemma settled_flat_vars : settled m (MatrixAccessor.flat_vars m).
Proof.
  intros d d2 (_ & _ & Hv & _). unfold cache_after in *.
  destruct d as [[fv|] fc s du], d2 as [[fv2|] fc2 s2 du2];
    simpl in *; destruct Hv as [Hv | (_ & Hv & Hv')]; by simplify_eq.
Qed.

Lemma settled_flat_cons : settled m (MatrixAccessor.flat_cons m).
Proof.
  intros d d2 (_ & _ & _ & Hc). unfold cache_after in *.
  destruct d as [fv [fc|] s du], d2 as [fv2 [fc2|] s2 du2];
    simpl in *; destruct Hc as [Hc | (_ & Hc & Hc')]; by simplify_eq.
Qed.

Lemma settled_bind {A B} (x : acc A) (k : A -> acc B) :
  settled m x -> (forall a, preserves (fills m true true) (k a)) ->
  (forall a, settled m (k a)) ->
  settled m (do a <- x; k a).
Proof.
  intros Hx Hkf Hk d d2 Hext. specialize (Hx d d2).
  unfold cache_after, bind in *.
  destruct (x d) as [[[a|e] d1] n1] eqn:Hrun; simpl in *.
  - specialize (Hkf a d1). specialize (Hk a d1 d2). unfold cache_after in *.
    destruct (k a d1) as [[r d1'] n2] eqn:Hrunk. simpl in *.
    destruct Hx as [Hres Hd2]; [by eapply fills_trans|].
    destruct (x d2) as [[r2 d2'] n3]. simpl in *. subst r2 d2'.
    destruct (Hk Hext) as [Hres' Hd2'].
    destruct (k a d2) as [[r3 d3] n4]. simpl in *. by subst.
  - destruct (Hx Hext) as [Hres Hd2].
    destruct (x d2) as [[r2 d2'] n3]. simpl in *. by subst.
Qed.

End Settled.

Lemma fills_weaken m bv bc d d' : fills m bv bc d d' -> fills m true true d d'.
Proof. unfold fills. tauto. Qed.

Lemma vlabels_fills m : preserves (fills m true true) (MatrixAccessor.vlabels m).
Proof.
  eapply preserves_mono; [apply fills_weaken|].
  apply (preserves_bind (fills m true false)); eauto with frame.
Qed.

Lemma clabels_fills m : preserves (fills m true true) (MatrixAccessor.clabels m).
Proof.
  eapply preserves_mono; [apply fills_weaken|].
  apply (preserves_bind (fills m false true)); eauto with frame.
  intros df. destruct (Cons.empty df); eauto with frame.
Qed.

#[local] Hint Resolve settled_flat_vars settled_flat_cons vlabels_fills clabels_fills
  : frame.

(** One step through a method body for [settled]. *)
Ltac settled_step :=
  match goal with
  | |- settled _ (bind _ _) =>
      apply settled_bind; [ | intros ?; repeat frame_step | intros ?]
  | |- settled _ (if ?b then _ else _) => destruct b
  | |- settled _ (match ?o with _ => _ end) => destruct o
  | |- settled _ (MatrixAccessor.flat_vars _) => apply settled_flat_vars
  | |- settled _ (MatrixAccessor.flat_cons _) => apply settled_flat_cons
  | |- settled _ _ => eapply settled_const; intros ?; reflexivity
  end.

Lemma vlabels_settled m : settled m (MatrixAccessor.vlabels m).
Proof. unfold MatrixAccessor.vlabels. repeat settled_step. Qed.

Lemma clabels_settled m : settled m (MatrixAccessor.clabels m).
Proof. unfold MatrixAccessor.clabels. repeat settled_step. Qed.

Lemma getattr_settled (m : Model) (v : view) :
  v <> V_sol -> v <> V_dual -> settled m (getattr m v).
Proof.
  intros Hs Hd.
  destruct v; try done; simpl; unfold amap;
    unfold MatrixAccessor.vtypes, MatrixAccessor.lb,
      MatrixAccessor.ub, MatrixAccessor.A,
      MatrixAccessor.sense, MatrixAccessor.b, MatrixAccessor.c, MatrixAccessor.Q;
    repeat first [ apply vlabels_settled | apply clabels_settled | settled_step ].
Qed.

Ltac run_twice :=
  unfold cache_after, MatrixAccessor.sol, MatrixAccessor.dual, cached_property, bind,
    MatrixAccessor.flat_vars, MatrixAccessor.flat_cons, cached_property,
    delattr, ret, raise, call_create_vector;
  simpl;
  repeat (case_match; simplify_eq/=);
  done.

Lemma sol_twice (m : Model) (d : cache) :
  (MatrixAccessor.sol m (cache_after (MatrixAccessor.sol m) d)).1.1
  = (MatrixAccessor.sol m d).1.1 /\
  cache_after (MatrixAccessor.sol m) (cache_after (MatrixAccessor.sol m) d)
  = cache_after (MatrixAccessor.sol m) d.
Proof. destruct d as [[fv|] fc [s|] du]; run_twice. Qed.

Lemma dual_twice (m : Model) (d : cache) :
  (MatrixAccessor.dual m (cache_after (MatrixAccessor.dual m) d)).1.1
  = (MatrixAccessor.dual m d).1.1 /\
  cache_after (MatrixAccessor.dual m) (cache_after (MatrixAccessor.dual m) d)
  = cache_after (MatrixAccessor.dual m) d.
Proof. destruct d as [fv [fc|] s [du|]]; run_twice. Qed.

(** X14.  Reading a view twice in a row on the same state of the model
    gives the same answer (the same value or the same exception), and the
    second read leaves the dictionary as the first one left it. *)
Theorem read_twice (m : Model) (v : view) (d : cache) :
  (getattr m v (cache_after (getattr m v) d)).1.1 = (getattr m v d).1.1 /\
  cache_after (getattr m v) (cache_after (getattr m v) d)
  = cache_after (getattr m v) d.
Proof.
  destruct (decide (v = V_sol)) as [->|Hs]; [|destruct (decide (v = V_dual)) as [->|Hd]].
  - destruct (sol_twice m d) as [Hres Hd]. unfold cache_after in *.
    rewrite !getattr_sol_run. simpl. rewrite Hres, Hd. done.
  - destruct (dual_twice m d) as [Hres Hd]. unfold cache_after in *.
    rewrite !getattr_dual_run. simpl. rewrite Hres, Hd. done.
  - apply (getattr_settled m v Hs Hd d). apply fills_refl.
Qed.

(** ** The solution and dual vectors *)

(** X15.  On a solved model ([status] ["ok"]) whose flat variable table
    has a solution column and dense keys, the first read of [sol] returns
    a vector with one entry per row, the solution of a row standing at
    the row's key, and caches it.  A flat variable table cached before the
    solve (without a solution column) is dropped and replaced by the
    model's current table. *)
Theorem sol_by_key (m : Model) (d : cache) (solution : list float) :
  status m = "ok" ->
  d_sol d = None ->
  (forall T0, d_flat_vars d = Some T0 -> Vars.solution T0 = None) ->
  Vars.solution (variables_flat m) = Some solution ->
  keys_dense (Vars.key (variables_flat m)) ->
  Vars.key (variables_flat m) <> [] ->
  length solution = length (Vars.key (variables_flat m)) ->
  exists vector,
    MatrixAccessor.sol m d
    = (Ok vector, set_sol (Some vector) (set_flat_vars (Some (variables_flat m)) d),
       1%nat) /\
    length vector = length (Vars.key (variables_flat m)) /\
    forall r k, Vars.key (variables_flat m) !! r = Some k ->
                vector !! Z.to_nat k = solution !! r.
Proof.
  intros Hst Hnone Hstale Hsol Hdense Hne Hlen.
  destruct (scatter_dense _ solution nan Hdense Hne Hlen (np_asarray_float _ _))
    as (vector & Hrun & Hlenv & Hat & _).
  exists vector. split; [|done].
  apply status_is_ok in Hst.
  unfold MatrixAccessor.sol, cached_property. rewrite Hnone, Hst.
  unfold bind, MatrixAccessor.flat_vars, cached_property, ret, raise, delattr,
    call_create_vector.
  destruct d as [[fv|] fc s du]; simpl in *.
  - rewrite (Hstale fv eq_refl). simpl. by rewrite Hsol, Hrun.
  - rewrite Hsol. simpl. by rewrite Hsol, Hrun.
Qed.

Lemma sol_by_key_witness :
  exists vector,
    MatrixAccessor.sol solved (set_flat_vars (Some (xy_vars None)) empty_cache)
    = (Ok vector,
       set_sol (Some vector)
         (set_flat_vars (Some (variables_flat solved))
            (set_flat_vars (Some (xy_vars None)) empty_cache)), 1%nat) /\
    length vector = length (Vars.key (variables_flat solved)) /\
    forall r k, Vars.key (variables_flat solved) !! r = Some k ->
                vector !! Z.to_nat k = [1; 1; 4; 4]%float !! r.
Proof.
  apply (sol_by_key solved (set_flat_vars (Some (xy_vars None)) empty_cache)).
  - reflexivity.
  - reflexivity.
  - intros T0 H. simpl in H. by injection H as <-.
  - reflexivity.
  - exact xy_keys_dense.
  - discriminate.
  - reflexivity.
Defined.

(** X16.  On a solved model whose flat constraint table has a dual column
    and dense keys, the first read of [dual] returns a vector with one
    entry per row, the dual of a row standing at the row's key, and caches
    it; a flat constraint table cached without a dual column is replaced
    by the model's current table. *)
Theorem dual_by_key (m : Model) (d : cache) (duals : list float) :
  status m = "ok" ->
  d_dual d = None ->
  (forall T0, d_flat_cons d = Some T0 -> Cons.dual T0 = None) ->
  Cons.dual (constraints_flat m) = Some duals ->
  keys_dense (Cons.key (constraints_flat m)) ->
  Cons.key (constraints_flat m) <> [] ->
  length duals = length (Cons.key (constraints_flat m)) ->
  exists vector,
    MatrixAccessor.dual m d
    = (Ok vector, set_dual (Some vector) (set_flat_cons (Some (constraints_flat m)) d),
       1%nat) /\
    length vector = length (Cons.key (constraints_flat m)) /\
    forall r k, Cons.key (constraints_flat m) !! r = Some k ->
                vector !! Z.to_nat k = duals !! r.
Proof.
  intros Hst Hnone Hstale Hdual Hdense Hne Hlen.
  destruct (scatter_dense _ duals nan Hdense Hne Hlen (np_asarray_float _ _))
    as (vector & Hrun & Hlenv & Hat & _).
  exists vector. split; [|done].
  apply status_is_ok in Hst.
  unfold MatrixAccessor.dual, cached_property. rewrite Hnone, Hst.
  unfold bind, MatrixAccessor.flat_cons, cached_property, ret, raise, delattr,
    call_create_vector.
  destruct d as [fv [fc|] s du]; simpl in *.
  - rewrite (Hstale fc eq_refl). simpl. by rewrite Hdual, Hrun.
  - rewrite Hdual. simpl. by rewrite Hdual, Hrun.
Qed.

Lemma dual_by_key_witness :
  exists vector,
    MatrixAccessor.dual solved empty_cache
    = (Ok vector,
       set_dual (Some vector) (set_flat_cons (Some (constraints_flat solved)) empty_cache),
       1%nat) /\
    length vector = length (Cons.key (constraints_flat solved)) /\
    forall r k, Cons.key (constraints_flat solved) !! r = Some k ->
                vector !! Z.to_nat k = [0; 2]%float !! r.
Proof.
  apply (dual_by_key solved empty_cache).
  - reflexivity.
  - reflexivity.
  - simpl. discriminate.
  - reflexivity.
  - exact two_keys_dense.
  - discriminate.
  - reflexivity.
Defined.

(** X17.  The exceptions of [sol] and [dual], with their causes.  [sol]
    raises only: the [ValueError] of a model that is not optimized, with
    the dictionary untouched; the [AttributeError] of a missing solution
    column, when the model's own current table has none; or what the
    builder raises on the table it was given.  [dual] likewise, with its
    own [AttributeError].  The [del] of the table never raises, and a
    failed read stores no vector. *)
Theorem sol_dual_exceptions :
  (forall m d e d' n,
      MatrixAccessor.sol m d = (Raise e, d', n) ->
      d_sol d' = None /\
      ((status m <> "ok" /\ e = ValueError "Model is not optimized." /\
        d' = d /\ n = 0%nat) \/
       (status m = "ok" /\ Vars.solution (variables_flat m) = None /\
        e = AttributeError "'DataFrame' object has no attribute 'solution'" /\
        d_flat_vars d' = Some (variables_flat m) /\ n = 0%nat) \/
       (status m = "ok" /\ n = 1%nat /\
        exists T solution,
          d_flat_vars d' = Some T /\ Vars.solution T = Some solution /\
          create_vector (Vars.key T) solution nan None = Raise e))) /\
  (forall m d e d' n,
      MatrixAccessor.dual m d = (Raise e, d', n) ->
      d_dual d' = None /\
      ((status m <> "ok" /\ e = ValueError "Model is not optimized." /\
        d' = d /\ n = 0%nat) \/
       (status m = "ok" /\ Cons.dual (constraints_flat m) = None /\
        e = AttributeError
              "Underlying is optimized but does not have dual values stored." /\
        d_flat_cons d' = Some (constraints_flat m) /\ n = 0%nat) \/
       (status m = "ok" /\ n = 1%nat /\
        exists T duals,
          d_flat_cons d' = Some T /\ Cons.dual T = Some duals /\
          create_vector (Cons.key T) duals nan None = Raise e))).
Proof.
  split; intros m d e d' n Hrun.
  - destruct (String.eqb_spec (status m) "ok") as [Hst|Hst].
    + revert Hrun. unfold MatrixAccessor.sol, cached_property, bind,
        MatrixAccessor.flat_vars, cached_property, delattr, ret, raise,
        call_create_vector.
      rewrite Hst. simpl.
      destruct d as [[fv|] fc [s|] du]; simpl;
        repeat (case_match; simplify_eq/=); intros Hrun; simplify_eq/=;
        (split; [done|]); eauto 10.
    + revert Hrun. unfold MatrixAccessor.sol, cached_property.
      rewrite (status_not_ok m Hst).
      destruct (d_sol d) eqn:Hs; intros Hrun; simplify_eq/=.
      split; [done|]. left. done.
  - destruct (String.eqb_spec (status m) "ok") as [Hst|Hst].
    + revert Hrun. unfold MatrixAccessor.dual, cached_property, bind,
        MatrixAccessor.flat_cons, cached_property, delattr, ret, raise,
        call_create_vector.
      rewrite Hst. simpl.
      destruct d as [fv [fc|] s [du|]]; simpl;
        repeat (case_match; simplify_eq/=); intros Hrun; simplify_eq/=;
        (split; [done|]); eauto 10.
    + revert Hrun. unfold MatrixAccessor.dual, cached_property.
      rewrite (status_not_ok m Hst).
      destruct (d_dual d) eqn:Hs; intros Hrun; simplify_eq/=.
      split; [done|]. left. done.
Qed.

Lemma sol_dual_exceptions_witness :
  d_dual (set_flat_cons (Some (three_cons None)) empty_cache) = None /\
  ((status solved_no_duals <> "ok" /\
    AttributeError "Underlying is optimized but does not have dual values stored."
    = ValueError "Model is not optimized." /\
    set_flat_cons (Some (three_cons None)) empty_cache = empty_cache /\ 0%nat = 0%nat) \/
   (status solved_no_duals = "ok" /\ Cons.dual (constraints_flat solved_no_duals) = None /\
    AttributeError "Underlying is optimized but does not have dual values stored."
    = AttributeError "Underlying is optimized but does not have dual values stored." /\
    d_flat_cons (set_flat_cons (Some (three_cons None)) empty_cache)
    = Some (constraints_flat solved_no_duals) /\ 0%nat = 0%nat) \/
   (status solved_no_duals = "ok" /\ 0%nat = 1%nat /\
    exists T duals,
      d_flat_cons (set_flat_cons (Some (three_cons None)) empty_cache) = Some T /\
      Cons.dual T = Some duals /\
      create_vector (Cons.key T) duals nan None
      = Raise (AttributeError
                 "Underlying is optimized but does not have dual values stored."))).
Proof.
  apply (proj2 sol_dual_exceptions solved_no_duals empty_cache).
  reflexivity.
Defined.

(** X18.  When the cached flat variable table already has a solution
    column, [sol] builds the vector from that cached table and leaves it in
    place: the model's current table is not read, so after a second solve
    without [clean_cached_properties] the vector is the one of the first
    solve.  Likewise [dual] and a cached flat constraint table with a dual
    column. *)
Theorem cached_column_is_used :
  (forall m d T solution,
      status m = "ok" ->
      d_sol d = None ->
      d_flat_vars d = Some T ->
      Vars.solution T = Some solution ->
      (MatrixAccessor.sol m d).1.1 = create_vector (Vars.key T) solution nan None /\
      d_flat_vars (cache_after (MatrixAccessor.sol m) d) = Some T) /\
  (forall m d T duals,
      status m = "ok" ->
      d_dual d = None ->
      d_flat_cons d = Some T ->
      Cons.dual T = Some duals ->
      (MatrixAccessor.dual m d).1.1 = create_vector (Cons.key T) duals nan None /\
      d_flat_cons (cache_after (MatrixAccessor.dual m) d) = Some T).
Proof.
  split; intros m d T col Hst Hnone HT Hcol; apply status_is_ok in Hst.
  - unfold cache_after, MatrixAccessor.sol, cached_property. rewrite Hnone, Hst.
    unfold bind, MatrixAccessor.flat_vars, cached_property, ret, call_create_vector.
    rewrite HT. simpl. rewrite Hcol, HT. simpl. rewrite Hcol.
    by destruct (create_vector _ _ _ _).
  - unfold cache_after, MatrixAccessor.dual, cached_property. rewrite Hnone, Hst.
    unfold bind, MatrixAccessor.flat_cons, cached_property, ret, call_create_vector.
    rewrite HT. simpl. rewrite Hcol, HT. simpl. rewrite Hcol.
    by destruct (create_vector _ _ _ _).
Qed.

Lemma cached_column_is_used_witness :
  ((MatrixAccessor.sol resolved
      (set_flat_vars (Some (xy_vars (Some [1; 1; 4; 4]%float))) empty_cache)).1.1
   = create_vector (Vars.key (xy_vars (Some [1; 1; 4; 4]%float))) [1; 1; 4; 4]%float
       nan None /\
   d_flat_vars
     (cache_after (MatrixAccessor.sol resolved)
        (set_flat_vars (Some (xy_vars (Some [1; 1; 4; 4]%float))) empty_cache))
   = Some (xy_vars (Some [1; 1; 4; 4]%float))) /\
  ((MatrixAccessor.dual resolved
      (set_flat_cons (Some (two_cons (Some [0; 2]%float))) empty_cache)).1.1
   = create_vector (Cons.key (two_cons (Some [0; 2]%float))) [0; 2]%float nan None /\
   d_flat_cons
     (cache_after (MatrixAccessor.dual resolved)
        (set_flat_cons (Some (two_cons (Some [0; 2]%float))) empty_cache))
   = Some (two_cons (Some [0; 2]%float))).
Proof.
  split.
  - apply (proj1 cached_column_is_used resolved); reflexivity.
  - apply (proj2 cached_column_is_used resolved); reflexivity.
Defined.
